(** * compressImage: a shallow embedding of the client-side image normalizer

    The source is the callback chain

      FileReader.readAsDataURL -> Image.onload -> canvas.toBlob -> resolve

    of [compressImage(file, maxSize = 512)].  JavaScript numbers are
    modelled as IEEE 754 binary64 values with the bit-level operations of
    [SpecFloat]; the browser is an explicit [Platform] of oracles; the
    callbacks are the handlers of a small event loop over a [State].  The
    [async] wrapper adds nothing: the promise it returns adopts the state
    of the one the executor builds, which is the [promise] of the [State]. *)

From Stdlib Require Import ZArith Lia Bool List String.
From Stdlib Require Import QArith Qround Reals Lra.
From Stdlib Require Import Floats.SpecFloat.
From Stdlib Require Strings.Byte.
Import ListNotations.

Local Open Scope Z_scope.

(** ** JavaScript numbers: binary64 *)

Module Num.

Definition prec : Z := 53.
Definition emax : Z := 1024.

Definition Number : Type := spec_float.

(** An integer seen as a Number (exact below [2^53]). *)
Definition of_Z (n : Z) : Number := binary_normalize prec emax n 0 false.

(** [x / y] and [x * y] on Numbers. *)
Definition div (x y : Number) : Number := SFdiv prec emax x y.
Definition mul (x y : Number) : Number := SFmul prec emax x y.

(** [Math.max(x, y)]: NaN if either is NaN, and [+0] is larger than [-0]. *)
Definition Math_max (x y : Number) : Number :=
  match SFcompare x y with
  | None => S754_nan
  | Some Lt => y
  | Some Gt => x
  | Some Eq => match x with S754_zero true => y | _ => x end
  end.

(** The integer part of a Number, toward zero; [0] for NaN and infinities. *)
Definition truncate (x : Number) : Z :=
  match x with
  | S754_finite s m e =>
      let a := Z.shiftl (Zpos m) e in
      if s then - a else a
  | _ => 0
  end.

(** WebIDL conversion of a Number to [unsigned long]. *)
Definition to_unsigned_long (x : Number) : Z := truncate x mod 2 ^ 32.

(** The exact rational value of a finite Number; [0] otherwise. *)
Definition to_Q (x : Number) : Q :=
  match x with
  | S754_finite s m e =>
      let n := if s then Zneg m else Zpos m in
      if 0 <=? e then inject_Z (n * 2 ^ e) else Qmake n (Z.to_pos (2 ^ (- e)))
  | _ => 0%Q
  end.

(** [Math.round(x)]: the integer nearest to [x], halves upward. *)
Definition Math_round (x : Number) : Z := Qfloor (to_Q x + (1 # 2))%Q.

(** The largest integer not above [x]. *)
Definition floor (x : Number) : Z := Qfloor (to_Q x).

(** [x > 1]. *)
Definition gt_one (x : Number) : bool := SFltb (of_Z 1) x.

(** The literal [0.7]. *)
Definition lit_0_7 : Number := S754_finite false 6305039478318694 (-53).

End Num.

Import Num.

(** ** Files, blobs and the browser *)

Definition bytes : Type := list Byte.byte.

Module File.
Record t : Type := make
  { name : string; type : string; lastModified : Z; content : bytes }.
End File.

Record Blob : Type := { blob_type : string; blob_bytes : bytes }.

(** The result of [readAsDataURL]: the media type and the payload. *)
Record DataURL : Type := { mediatype : string; payload : bytes }.

(** A loaded [Image] element: its source and natural size. *)
Record Img : Type := { src : DataURL; width : Z; height : Z }.

(** One [drawImage(image, dx, dy, dw, dh)] call. *)
Record Drawing : Type := { image : Img; dx : Z; dy : Z; dw : Z; dh : Z }.

(** A [canvas] element: its size attributes and what was drawn on it. *)
Record Canvas : Type :=
  { cwidth : Z; cheight : Z; drawn : option Drawing }.

(** What the browser decides: whether a file can be read, whether and at
    which natural size its bytes decode, how a bitmap serialises, the clock. *)
Record Platform : Type :=
  { readable : File.t -> bool;
    decode_image : DataURL -> option (Z * Z);
    serialize_bitmap : Canvas -> string -> Number -> option Blob;
    date_now : Z }.

(** The bytes of the string ["null"], which is what a [null] blob part
    becomes inside [new File([null], ...)]. *)
Definition null_text : bytes := [Byte.x6e; Byte.x75; Byte.x6c; Byte.x6c].

Definition part_bytes (part : option Blob) : bytes :=
  match part with
  | Some b => blob_bytes b
  | None => null_text
  end.

(** [new File(parts, name, { type, lastModified })]. *)
Definition new_File (parts : list (option Blob)) (name type : string)
    (lastModified : Z) : File.t :=
  File.make name type lastModified (List.concat (List.map part_bytes parts)).

(** [document.createElement("canvas")]. *)
Definition createElement_canvas : Canvas :=
  {| cwidth := 300; cheight := 150; drawn := None |}.

(** Assignment to a reflected [unsigned long] attribute with a default:
    values above [2^31 - 1] fall back to the default. *)
Definition reflect_unsigned_long (default : Z) (x : Number) : Z :=
  let v := to_unsigned_long x in
  if v <=? 2147483647 then v else default.

Definition set_width (c : Canvas) (x : Number) : Canvas :=
  {| cwidth := reflect_unsigned_long 300 x; cheight := cheight c; drawn := None |}.

Definition set_height (c : Canvas) (x : Number) : Canvas :=
  {| cwidth := cwidth c; cheight := reflect_unsigned_long 150 x; drawn := None |}.

Definition drawImage (c : Canvas) (i : Img) (x y w h : Z) : Canvas :=
  {| cwidth := cwidth c; cheight := cheight c;
     drawn := Some {| image := i; dx := x; dy := y; dw := w; dh := h |} |}.

(** [canvas.toBlob]: [null] for a bitmap without pixels, else the
    serialisation, which may itself fail with [null]. *)
Definition toBlob (P : Platform) (c : Canvas) (type : string) (quality : Number)
    : option Blob :=
  if (cwidth c =? 0) || (cheight c =? 0) then None
  else serialize_bitmap P c type quality.

(** ** The promise and the event loop *)

Inductive Settlement : Type :=
| Pending
| Fulfilled (value : File.t)
| Rejected (reason : string).

(** Platform operations in flight.  Each stands for the operation and the
    one callback the source registered for its success; no error handler is
    registered anywhere. *)
Inductive Task : Type :=
| ReadAsDataURL (blob : File.t)
| LoadImage (url : DataURL)
| ToBlob (c : Canvas) (type : string) (quality : Number).

Record State : Type :=
  { file : File.t;               (* the caller's file, captured by the closures *)
    maxSize : Number;            (* the second parameter *)
    promise : Settlement;
    tasks : list Task;
    canvas : option Canvas;      (* the canvas made by [img.onload] *)
    outputs : list File.t;       (* [File] objects constructed so far *)
    resolve_calls : nat }.

Definition with_tasks (ts : list Task) (st : State) : State :=
  {| file := file st; maxSize := maxSize st; promise := promise st; tasks := ts;
     canvas := canvas st; outputs := outputs st; resolve_calls := resolve_calls st |}.

Definition enqueue (t : Task) (st : State) : State :=
  with_tasks (tasks st ++ [t]) st.

(** Calling the promise's [resolve] function: only the first call settles. *)
Definition resolve (v : File.t) (st : State) : State :=
  {| file := file st; maxSize := maxSize st;
     promise := match promise st with Pending => Fulfilled v | p => p end;
     tasks := tasks st; canvas := canvas st; outputs := outputs st;
     resolve_calls := S (resolve_calls st) |}.

Definition scale_of (maxSize : Number) (w h : Z) : Number :=
  div maxSize (Math_max (of_Z w) (of_Z h)).

(** The canvas after the first six statements of [img.onload]. *)
Definition render (maxSize : Number) (img : Img) : Canvas :=
  let scale := scale_of maxSize (width img) (height img) in
  let canvas := createElement_canvas in
  let canvas := set_width canvas (mul (of_Z (width img)) scale) in
  let canvas := set_height canvas (mul (of_Z (height img)) scale) in
  drawImage canvas img 0 0 (cwidth canvas) (cheight canvas).

Definition jpeg : string := "image/jpeg".

(** [reader.result] after a successful [readAsDataURL(f)]. *)
Definition data_url (f : File.t) : DataURL :=
  {| mediatype := File.type f; payload := File.content f |}.

Section Handlers.
Variable P : Platform.

(** [reader.onload]: make an image and set its source. *)
Definition reader_onload (result : DataURL) (st : State) : State :=
  enqueue (LoadImage result) st.

(** [img.onload]: size the canvas, draw, ask for the blob. *)
Definition img_onload (img : Img) (st : State) : State :=
  let c := render (maxSize st) img in
  enqueue (ToBlob c jpeg lit_0_7)
    {| file := file st; maxSize := maxSize st; promise := promise st;
       tasks := tasks st; canvas := Some c; outputs := outputs st;
       resolve_calls := resolve_calls st |}.

(** The [toBlob] callback: wrap the blob in a file and resolve. *)
Definition blob_callback (blob : option Blob) (st : State) : State :=
  let compressedFile :=
    new_File [blob] (File.name (file st)) jpeg (date_now P) in
  resolve compressedFile
    {| file := file st; maxSize := maxSize st; promise := promise st;
       tasks := tasks st; canvas := canvas st;
       outputs := outputs st ++ [compressedFile];
       resolve_calls := resolve_calls st |}.

(** The platform completes one operation and fires its event. *)
Definition handle (t : Task) (st : State) : State :=
  match t with
  | ReadAsDataURL f =>
      if readable P f
      then reader_onload (data_url f) st
      else st
  | LoadImage url =>
      match decode_image P url with
      | Some (w, h) => img_onload {| src := url; width := w; height := h |} st
      | None => st
      end
  | ToBlob c type quality => blob_callback (toBlob P c type quality) st
  end.

Definition step (st : State) : option State :=
  match tasks st with
  | [] => None
  | t :: rest => Some (handle t (with_tasks rest st))
  end.

Fixpoint run (fuel : nat) (st : State) : State :=
  match fuel with
  | O => st
  | S n => match step st with
           | Some st' => run n st'
           | None => st
           end
  end.

(** The promise executor: make the reader and start the read. *)
Definition executor (f : File.t) (maxSize : Number) : State :=
  {| file := f; maxSize := maxSize; promise := Pending;
     tasks := [ReadAsDataURL f]; canvas := None; outputs := [];
     resolve_calls := O |}.

Definition default_maxSize : Number := of_Z 512.

(** The default value of the second parameter. *)
Definition or_default (maxSize : option Number) : Number :=
  match maxSize with Some m => m | None => default_maxSize end.

(** [compressImage(file, maxSize = 512)], run until no operation is in
    flight. *)
Definition compressImage (f : File.t) (maxSize : option Number) : State :=
  run 3 (executor f (or_default maxSize)).

Definition quiescent (st : State) : Prop := tasks st = [].

Inductive steps : State -> State -> Prop :=
| steps_refl st : steps st st
| steps_next st st' st'' : step st = Some st' -> steps st' st'' -> steps st st''.

End Handlers.

(** ** A call on any argument *)




(** ** What the specification asks for, in its own words *)

(** The source bytes cannot be interpreted as a raster image. *)
Definition decode_failure (P : Platform) (f : File.t) : Prop :=
  decode_image P (data_url f) = None.


Definition settles_rejected (st : State) : Prop :=
  exists reason, promise st = Rejected reason.

(** The surface size the specification prescribes: each side rounded to
    the nearest integer. *)
Definition rounded_surface (maxSize : Number) (w h : Z) : Z * Z :=
  let scale := scale_of maxSize w h in
  (Math_round (mul (of_Z w) scale), Math_round (mul (of_Z h) scale)).

(** The surface size with each side cut down to its integer part. *)
Definition floored_surface (maxSize : Number) (w h : Z) : Z * Z :=
  let scale := scale_of maxSize w h in
  (floor (mul (of_Z w) scale), floor (mul (of_Z h) scale)).

Definition surface (c : Canvas) : Z * Z := (cwidth c, cheight c).

Definition larger_side (c : Canvas) : Z := Z.max (cwidth c) (cheight c).

(** The size of the output image: what the fulfilled file decodes at, if the
    promise is fulfilled and the file is an image. *)
Definition output_size (P : Platform) (st : State) : option (Z * Z) :=
  match promise st with
  | Fulfilled v => decode_image P (data_url v)
  | _ => None
  end.

(** A codec that reads back, from the bytes it serialised, the size of the
    bitmap it was given. *)
Definition round_trip (P : Platform) : Prop :=
  forall (c : Canvas) (type : string) (quality : Number) (b : Blob) (u : DataURL),
    0 <= cwidth c -> 0 <= cheight c ->
    serialize_bitmap P c type quality = Some b ->
    payload u = blob_bytes b ->
    decode_image P u = Some (cwidth c, cheight c).

(** ** A small codec to run the model on

    A test image is the byte [R] followed by the width and the height, two
    bytes each, most significant first; serialising a bitmap writes the same
    five bytes and refuses sides of 65536 or more. *)

Module TestCodec.

Definition byte_of_Z (z : Z) : Byte.byte :=
  match Byte.of_N (Z.to_N (z mod 256)) with
  | Some b => b
  | None => Byte.x00
  end.

Definition Z_of_byte (b : Byte.byte) : Z := Z.of_N (Byte.to_N b).

Definition header (w h : Z) : bytes :=
  [Byte.x52; byte_of_Z (w / 256); byte_of_Z w; byte_of_Z (h / 256); byte_of_Z h].

Definition decode (u : DataURL) : option (Z * Z) :=
  match payload u with
  | Byte.x52 :: a :: b :: c :: d :: _ =>
      Some (256 * Z_of_byte a + Z_of_byte b, 256 * Z_of_byte c + Z_of_byte d)
  | _ => None
  end.

Definition serialize (c : Canvas) (type : string) (quality : Number) : option Blob :=
  if (cwidth c <? 65536) && (cheight c <? 65536)
  then Some {| blob_type := type; blob_bytes := header (cwidth c) (cheight c) |}
  else None.

Definition platform : Platform :=
  {| readable := fun _ => true;
     decode_image := decode;
     serialize_bitmap := serialize;
     date_now := 1700000000000 |}.

Definition picture (name : string) (w h : Z) : File.t :=
  File.make name "image/png" 0 (header w h).

(** Not an image: the text [null]. *)
Definition corrupt : File.t := File.make "notes.txt" "text/plain" 0 null_text.

End TestCodec.

(** ** The hero image's scroll handler *)

Module Hero.

(** [classList.add(token)] and [classList.remove(token)] on the ordered
    set of class tokens. *)
Definition classList_add (token : string) (classList : list string) : list string :=
  if in_dec string_dec token classList then classList else classList ++ [token].

Definition classList_remove (token : string) (classList : list string) : list string :=
  filter (fun t => negb (String.eqb t token)) classList.

Definition scrollThreshold : Number := of_Z 100.

(** [handlescroll], given [window.scrollY] and the class list of the image
    element. *)
Definition handlescroll (scrollY : Number) (classList : list string) : list string :=
  if SFltb scrollThreshold scrollY
  then classList_add "scrolled" classList
  else classList_remove "scrolled" classList.

(** The class list after a series of scroll events. *)
Definition after_scrolls (positions : list Number) (classList : list string)
    : list string :=
  fold_left (fun cl y => handlescroll y cl) positions classList.

End Hero.

(** ** The transaction form *)

Module TransactionForm.

Section Form.
(** What [new Date(...)] is given and what it makes, and the two built-in
    conversions the form uses. *)
Variable DateInput : Type.
Variable Date : Type.
Variable new_Date : DateInput -> Date.
Variable Number_toString : Number -> string.

Record Account : Type :=
  { id : string; name : string; balance : string; isDefault : bool }.

(** [initialData]: the transaction being edited. *)
Record Transaction : Type :=
  { t_type : string; t_amount : Number; t_description : option string;
    t_accountId : string; t_category : string; t_date : DateInput;
    t_isRecurring : bool; t_recurringInterval : option string }.

(** The values the form holds. *)
Record FormValues : Type :=
  { type : string; amount : string; description : option string;
    accountId : option string; category : option string; date : Date;
    isRecurring : bool; recurringInterval : option string }.

(** What the receipt scanner hands to [onScanComplete]. *)
Record Scan : Type :=
  { s_amount : Number; s_date : DateInput;
    s_description : option string; s_category : option string }.

(** A string in a condition: absent and empty strings are false. *)
Definition truthy (s : option string) : bool :=
  match s with
  | Some s => negb (String.eqb s "")
  | None => false
  end.

(** [accounts.find((ac) => ac.isDefault)?.id]. *)
Definition default_accountId (accounts : list Account) : option string :=
  option_map id (find isDefault accounts).

(** The [defaultValues] passed to [useForm]; [now] is [new Date()]. *)
Definition defaultValues (accounts : list Account) (editMode : bool)
    (initialData : option Transaction) (now : Date) : FormValues :=
  match editMode, initialData with
  | true, Some t =>
      {| type := t_type t;
         amount := Number_toString (t_amount t);
         description := t_description t;
         accountId := Some (t_accountId t);
         category := Some (t_category t);
         date := new_Date (t_date t);
         isRecurring := t_isRecurring t;
         recurringInterval :=
           if truthy (t_recurringInterval t) then t_recurringInterval t else None |}
  | _, _ =>
      {| type := "EXPENSE";
         amount := "";
         description := Some ""%string;
         accountId := default_accountId accounts;
         category := None;
         date := now;
         isRecurring := false;
         recurringInterval := None |}
  end.

(** The form values and the toasts shown so far. *)
Record FormState : Type := { values : FormValues; toasts : list string }.

Definition setAmount (v : string) (fv : FormValues) : FormValues :=
  {| type := type fv; amount := v; description := description fv;
     accountId := accountId fv; category := category fv; date := date fv;
     isRecurring := isRecurring fv; recurringInterval := recurringInterval fv |}.

Definition setDate (v : Date) (fv : FormValues) : FormValues :=
  {| type := type fv; amount := amount fv; description := description fv;
     accountId := accountId fv; category := category fv; date := v;
     isRecurring := isRecurring fv; recurringInterval := recurringInterval fv |}.

Definition setDescription (v : option string) (fv : FormValues) : FormValues :=
  {| type := type fv; amount := amount fv; description := v;
     accountId := accountId fv; category := category fv; date := date fv;
     isRecurring := isRecurring fv; recurringInterval := recurringInterval fv |}.

Definition setCategory (v : option string) (fv : FormValues) : FormValues :=
  {| type := type fv; amount := amount fv; description := description fv;
     accountId := accountId fv; category := v; date := date fv;
     isRecurring := isRecurring fv; recurringInterval := recurringInterval fv |}.

(** [handleScanComplete(scannedData)]. *)
Definition handleScanComplete (scannedData : option Scan) (st : FormState) : FormState :=
  match scannedData with
  | None => st
  | Some d =>
      let fv := setAmount (Number_toString (s_amount d)) (values st) in
      let fv := setDate (new_Date (s_date d)) fv in
      let fv := if truthy (s_description d) then setDescription (s_description d) fv else fv in
      let fv := if truthy (s_category d) then setCategory (s_category d) fv else fv in
      {| values := fv;
         toasts := toasts st ++ ["Receipt scanned successfully"%string] |}
  end.

End Form.

End TransactionForm.

(** ** Definitions used by the proofs *)

(** What holds of every state the event loop passes through. *)
Definition chain_inv (f : File.t) (st : State) : Prop :=
  file st = f /\
  ((promise st = Pending /\ outputs st = [] /\ resolve_calls st = O /\
    (List.length (tasks st) <= 1)%nat) \/
   (exists v, promise st = Fulfilled v /\ outputs st = [v] /\
              resolve_calls st = 1%nat /\ tasks st = [])).

Definition zero_or_nan (x : Number) : Prop :=
  match x with
  | S754_zero _ | S754_nan => True
  | _ => False
  end.

Definition inf_or_nan (x : Number) : Prop :=
  match x with
  | S754_infinity _ | S754_nan => True
  | _ => False
  end.

(** The round and sticky bits that go with a remainder [rem] out of [D]. *)
Definition loc_bits (D rem : Z) : bool * bool :=
  (D <=? 2 * rem, negb (rem =? 0) && negb (2 * rem =? D)).

(** The record [mrs] holds the quotient of [M] by [D] and, in its two bits,
    where the remainder lies with respect to half of [D]. *)
Definition located (M D : Z) (mrs : shr_record) : Prop :=
  0 <= shr_m mrs /\
  exists rem, M = shr_m mrs * D + rem /\ 0 <= rem < D /\
              (shr_r mrs, shr_s mrs) = loc_bits D rem.

Definition pow2 (e : Z) : R := powerRZ 2 e.

(** The real value of a Number. *)
Definition to_R (x : Number) : R :=
  match x with
  | S754_finite s m e =>
      ((if s then - IZR (Zpos m) else IZR (Zpos m)) * pow2 e)%R
  | _ => 0%R
  end.

Definition expo (x : Number) : Z :=
  match x with
  | S754_finite _ _ e => e
  | _ => 0
  end.

(** Positive, with a full 53-bit mantissa and an exponent in range. *)
Definition normal (x : Number) : Prop :=
  match x with
  | S754_finite false m e => 2 ^ 52 <= Zpos m < 2 ^ 53 /\ -1074 <= e <= 971
  | _ => False
  end.

(** * Binary64 rounding *)

Example of_Z_512 : of_Z 512 = S754_finite false 4503599627370496 (-43).
Proof. reflexivity. Qed.

Example lit_0_7_is_7_div_10 : div (of_Z 7) (of_Z 10) = lit_0_7.
Proof. reflexivity. Qed.

Ltac bool_cases :=
  repeat match goal with
         | |- context [?a <=? ?b] => destruct (Z.leb_spec a b)
         | |- context [?a =? ?b] => destruct (Z.eqb_spec a b)
         end.

Lemma digits2_size (p : positive) : digits2_pos p = Pos.size p.
Proof. induction p; simpl; congruence. Qed.

Lemma digits2_bounds (p : positive) :
  2 ^ (Zpos (digits2_pos p) - 1) <= Zpos p < 2 ^ Zpos (digits2_pos p).
Proof.
  rewrite digits2_size. split.
  - pose proof (Pos.size_le p) as H.
    assert (H' : 2 ^ Zpos (Pos.size p) <= 2 * Zpos p).
    { rewrite <- Pos2Z.inj_pow. change (2 * Z.pos p) with (Zpos p~0).
      apply Pos2Z.pos_le_pos. exact H. }
    replace (Zpos (Pos.size p)) with (Z.succ (Zpos (Pos.size p) - 1)) in H' by lia.
    rewrite Z.pow_succ_r in H' by lia. lia.
  - pose proof (Pos.size_gt p) as H.
    rewrite <- Pos2Z.inj_pow. apply Pos2Z.pos_lt_pos. exact H.
Qed.

Lemma digits2_unique (p : positive) (d : Z) :
  2 ^ (d - 1) <= Zpos p < 2 ^ d -> Zpos (digits2_pos p) = d.
Proof.
  intros [Hl Hu]. pose proof (digits2_bounds p) as [Hl' Hu'].
  set (d' := Zpos (digits2_pos p)) in *.
  assert (0 < d') by (unfold d'; lia).
  assert (0 < d).
  { destruct (Z.lt_trichotomy d 0) as [Hn | [-> | Hp]]; [| simpl in Hu; lia | exact Hp].
    rewrite (Z.pow_neg_r 2 d Hn) in Hu. lia. }
  destruct (Z.lt_trichotomy d d') as [Hlt | [Heq | Hgt]]; [|symmetry; assumption|].
  - assert (2 ^ d <= 2 ^ (d' - 1)) by (apply Z.pow_le_mono_r; lia). lia.
  - assert (2 ^ d' <= 2 ^ (d - 1)) by (apply Z.pow_le_mono_r; lia). lia.
Qed.

Lemma shr_1_located (M D : Z) (mrs : shr_record) :
  0 < D -> located M D mrs -> located M (2 * D) (shr_1 mrs).
Proof.
  intros HD [Hm [rem [HM [Hrem Hb]]]].
  destruct mrs as [m r s]. cbn [shr_m shr_r shr_s] in *.
  unfold loc_bits in Hb. apply pair_equal_spec in Hb. destruct Hb as [-> ->].
  destruct m as [|p|p]; [| |lia].
  - unfold located; cbn [shr_1 shr_m shr_r shr_s]. split; [lia|].
    exists rem. split; [lia|]. split; [lia|].
    unfold loc_bits. bool_cases; cbn [negb andb orb]; try reflexivity; exfalso; lia.
  - destruct p as [p|p|]; unfold located; cbn [shr_1 shr_m shr_r shr_s]; (split; [lia|]).
    + exists (D + rem). split; [lia|]. split; [lia|].
      unfold loc_bits. bool_cases; cbn [negb andb orb]; try reflexivity; exfalso; lia.
    + exists rem. split; [lia|]. split; [lia|].
      unfold loc_bits. bool_cases; cbn [negb andb orb]; try reflexivity; exfalso; lia.
    + exists (D + rem). split; [lia|]. split; [lia|].
      unfold loc_bits. bool_cases; cbn [negb andb orb]; try reflexivity; exfalso; lia.
Qed.

Lemma iter_shr_1_located (p : positive) :
  forall (M D : Z) (mrs : shr_record),
    0 < D -> located M D mrs ->
    located M (D * 2 ^ Zpos p) (iter_pos shr_1 p mrs).
Proof.
  induction p as [p IH|p IH|]; intros M D mrs HD HL; cbn [iter_pos].
  - replace (D * 2 ^ Zpos p~1) with (2 * D * 2 ^ Zpos p * 2 ^ Zpos p).
    + assert (0 < 2 ^ Zpos p) by (apply Z.pow_pos_nonneg; lia).
      apply IH; [nia|]. apply IH; [lia|]. apply shr_1_located; assumption.
    + replace (Zpos p~1) with (Zpos p + Zpos p + 1) by lia.
      rewrite !Z.pow_add_r by lia. ring.
  - replace (D * 2 ^ Zpos p~0) with (D * 2 ^ Zpos p * 2 ^ Zpos p).
    + assert (0 < 2 ^ Zpos p) by (apply Z.pow_pos_nonneg; lia).
      apply IH; [nia|]. apply IH; [lia|]. assumption.
    + replace (Zpos p~0) with (Zpos p + Zpos p) by lia.
      rewrite !Z.pow_add_r by lia. ring.
  - replace (D * 2 ^ 1) with (2 * D) by (rewrite Z.pow_1_r; ring).
    apply shr_1_located; assumption.
Qed.

Lemma round_nearest_even_located (M D : Z) (mrs : shr_record) :
  0 < D -> located M D mrs ->
  let mr := round_nearest_even (shr_m mrs) (loc_of_shr_record mrs) in
  shr_m mrs <= mr <= shr_m mrs + 1 /\ 2 * Z.abs (mr * D - M) <= D.
Proof.
  intros HD [Hm [rem [HM [Hrem Hb]]]].
  destruct mrs as [m r s]. cbn [shr_m shr_r shr_s] in *.
  unfold loc_bits in Hb.
  destruct r, s; cbn [loc_of_shr_record round_nearest_even];
    try destruct (Z.even m); apply pair_equal_spec in Hb; revert Hb;
    bool_cases; cbn [negb andb]; intros [Hr Hs]; try discriminate; cbv zeta; split; lia.
Qed.

Lemma shr_fexp_normal (m : positive) (e : Z) (l : location) (M D : Z) :
  0 < D -> located M D (shr_record_of_loc (Zpos m) l) ->
  53 <= Zpos (digits2_pos m) -> -1074 <= Zpos (digits2_pos m) + e - 53 ->
  exists mrs,
    shr_fexp prec emax (Zpos m) e l = (mrs, e + (Zpos (digits2_pos m) - 53)) /\
    located M (D * 2 ^ (Zpos (digits2_pos m) - 53)) mrs.
Proof.
  intros HD HL Hd Hlo.
  unfold shr_fexp, fexp, emin, prec, emax, Zdigits2.
  set (d := Zpos (digits2_pos m)) in *.
  rewrite Z.max_l by lia.
  replace (d + e - 53 - e) with (d - 53) by lia.
  destruct (d - 53) as [|p|p] eqn:Ed; [| |lia]; cbn [shr].
  - eexists; split; [f_equal; lia|].
    rewrite Z.pow_0_r, Z.mul_1_r. exact HL.
  - eexists; split; [reflexivity|].
    apply iter_shr_1_located; assumption.
Qed.

Lemma located_exact (m : Z) : 0 <= m -> located m 1 (shr_record_of_loc m loc_Exact).
Proof.
  intro H. split; [exact H|]. exists 0. cbn [shr_record_of_loc shr_m shr_r shr_s].
  split; [lia|]. split; [lia|]. reflexivity.
Qed.

Lemma pow2_split (d : Z) : 53 <= d -> 2 ^ d = 2 ^ 53 * 2 ^ (d - 53) /\ 2 ^ (d - 1) = 2 ^ 52 * 2 ^ (d - 53).
Proof.
  intro H. rewrite <- !Z.pow_add_r by lia. split; f_equal; lia.
Qed.

Lemma binary_round_aux_normal (mx : positive) (ex : Z) (lx : location) (M D : Z) :
  let d := Zpos (digits2_pos mx) in
  0 < D -> located M D (shr_record_of_loc (Zpos mx) lx) ->
  53 <= d -> -1074 <= d + ex - 53 -> d + ex <= 1023 ->
  exists mr er,
    binary_round_aux prec emax false (Zpos mx) ex lx = S754_finite false mr er /\
    2 ^ 52 <= Zpos mr < 2 ^ 53 /\
    (er = ex + (d - 53) \/ er = ex + (d - 53) + 1) /\
    2 * Z.abs (Zpos mr * 2 ^ (er - ex) * D - M) <= D * 2 ^ (d - 53).
Proof.
  intros d HD HL Hd Hlo Hhi.
  destruct (shr_fexp_normal mx ex lx M D HD HL Hd Hlo) as [mrs1 [E1 L1]].
  fold d in E1, L1.
  unfold binary_round_aux. rewrite E1.
  set (n := d - 53) in *.
  assert (HP : 0 < 2 ^ n) by (apply Z.pow_pos_nonneg; lia).
  set (P := 2 ^ n) in *.
  assert (HD1 : 0 < D * P) by nia.
  pose proof (round_nearest_even_located M (D * P) mrs1 HD1 L1) as [Hm1 Herr].
  set (m1 := round_nearest_even (shr_m mrs1) (loc_of_shr_record mrs1)) in *.
  (* the shifted mantissa has 53 digits *)
  assert (Hb1 : 2 ^ 52 <= shr_m mrs1 < 2 ^ 53).
  { destruct L1 as [Hm' [rem1 [HM1 [Hrem1 _]]]].
    destruct HL as [_ [rem0 [HM0 [Hrem0 _]]]].
    cbn [shr_record_of_loc shr_m] in HM0.
    assert (Hx : shr_m (shr_record_of_loc (Zpos mx) lx) = Zpos mx)
      by (destruct lx as [|[| |]]; reflexivity).
    rewrite Hx in HM0.
    pose proof (digits2_bounds mx) as [Hlb Hub]. fold d in Hlb, Hub.
    destruct (pow2_split d Hd) as [Ed Ed1]. fold n in Ed, Ed1. fold P in Ed, Ed1.
    rewrite Ed in Hub. rewrite Ed1 in Hlb.
    change (2 ^ 52) with 4503599627370496 in *.
    change (2 ^ 53) with 9007199254740992 in *.
    split; nia. }
  assert (Hm1b : 2 ^ 52 <= m1 <= 2 ^ 53) by lia.
  destruct m1 as [|q|q] eqn:Em1; [lia| |lia].
  pose proof (digits2_bounds q) as [Hql Hqu].
  set (d2 := Zpos (digits2_pos q)) in *.
  assert (Hd2 : d2 = 53 \/ d2 = 54).
  { assert (52 < d2).
    { apply (Z.pow_lt_mono_r_iff 2); lia. }
    assert (d2 - 1 < 54).
    { apply (Z.pow_lt_mono_r_iff 2); [lia|lia|].
      change (2 ^ 54) with 18014398509481984.
      change (2 ^ 53) with 9007199254740992 in *. lia. }
    lia. }
  assert (Hd2' : 53 <= d2) by lia.
  assert (Hlo2 : -1074 <= d2 + (ex + n) - 53) by lia.
  destruct (shr_fexp_normal q (ex + n) loc_Exact (Zpos q) 1 ltac:(lia)
              (located_exact (Zpos q) ltac:(lia)) Hd2' Hlo2) as [mrs2 [E2 L2]].
  fold d2 in E2, L2.
  rewrite E2.
  destruct L2 as [Hm2 [rem2 [HM2 [Hrem2 _]]]].
  assert (Hval : shr_m mrs2 * 2 ^ (d2 - 53) = Zpos q /\ 2 ^ 52 <= shr_m mrs2 < 2 ^ 53).
  { destruct Hd2 as [E|E]; rewrite E in *.
    - change (2 ^ (53 - 53)) with 1 in *.
      change (2 ^ 52) with 4503599627370496 in *.
      change (2 ^ 53) with 9007199254740992 in *. lia.
    - change (2 ^ (54 - 53)) with 2 in *.
      change (2 ^ (54 - 1)) with 9007199254740992 in *.
      change (2 ^ 52) with 4503599627370496 in *.
      change (2 ^ 53) with 9007199254740992 in *. lia. }
  destruct Hval as [Hval Hb2].
  destruct (shr_m mrs2) as [|mr|mr] eqn:Emr; [lia| |lia].
  assert (Hle : (ex + n + (d2 - 53) <=? emax - prec) = true)
    by (apply Z.leb_le; unfold emax, prec; lia).
  rewrite Hle.
  exists mr, (ex + n + (d2 - 53)).
  split; [reflexivity|]. split; [exact Hb2|].
  split; [destruct Hd2 as [E|E]; rewrite E; [left|right]; lia|].
  replace (ex + n + (d2 - 53) - ex) with (n + (d2 - 53)) by lia.
  rewrite Z.pow_add_r by lia. fold P.
  replace (Zpos mr * (P * 2 ^ (d2 - 53)) * D - M)
    with (Zpos mr * 2 ^ (d2 - 53) * (D * P) - M) by ring.
  rewrite Hval. exact Herr.
Qed.

Lemma pow2_pos (e : Z) : (0 < pow2 e)%R.
Proof. apply powerRZ_lt. lra. Qed.

Lemma pow2_add (a b : Z) : (pow2 (a + b) = pow2 a * pow2 b)%R.
Proof. apply powerRZ_add. lra. Qed.

Lemma pow2_IZR (k : Z) : 0 <= k -> IZR (2 ^ k) = pow2 k.
Proof.
  intro H. destruct k as [|p|p]; [reflexivity| |lia].
  change (2 ^ Zpos p) with (Z.pow_pos 2 p). apply Zpower_pos_powerRZ.
Qed.

Lemma pow2_le (a b : Z) : a <= b -> (pow2 a <= pow2 b)%R.
Proof.
  intro H. replace b with (a + (b - a)) by lia. rewrite pow2_add.
  assert (H1 : (1 <= pow2 (b - a))%R).
  { rewrite <- pow2_IZR by lia. apply IZR_le.
    assert (0 < 2 ^ (b - a)) by (apply Z.pow_pos_nonneg; lia). lia. }
  pose proof (pow2_pos a). nra.
Qed.

Lemma pow2_m53 : (pow2 (-53) * 9007199254740992 = 1)%R.
Proof.
  change 9007199254740992%R with (IZR (2 ^ 53)).
  rewrite pow2_IZR by lia. rewrite <- pow2_add. reflexivity.
Qed.

(** A rounded value is within half an ulp, hence within [2^-53] of the
    exact one in relative terms. *)
Lemma binary_round_aux_R (mx : positive) (ex : Z) (lx : location) (M D : Z) :
  let d := Zpos (digits2_pos mx) in
  0 < D -> located M D (shr_record_of_loc (Zpos mx) lx) ->
  53 <= d -> -1074 <= d + ex - 53 -> d + ex <= 1023 ->
  let y := binary_round_aux prec emax false (Zpos mx) ex lx in
  let t := (IZR M / IZR D * pow2 ex)%R in
  normal y /\
  ex + (d - 53) <= expo y <= ex + (d - 53) + 1 /\
  (Rabs (to_R y - t) <= t * pow2 (-53))%R.
Proof.
  intros d HD HL Hd Hlo Hhi y t.
  destruct (binary_round_aux_normal mx ex lx M D HD HL Hd Hlo Hhi)
    as [mr [er [Ey [Hmr [Her Herr]]]]].
  fold d in Her, Herr. subst y. rewrite Ey.
  split; [cbn [normal]; split; [exact Hmr | lia]|].
  split; [cbn [expo]; lia|].
  cbn [to_R].
  (* the exact value is at least [2^52] units of the last place *)
  assert (HM : 2 ^ 52 * 2 ^ (d - 53) * D <= M).
  { destruct HL as [_ [rem0 [HM0 [Hrem0 _]]]].
    assert (Hx : shr_m (shr_record_of_loc (Zpos mx) lx) = Zpos mx)
      by (destruct lx as [|[| |]]; reflexivity).
    rewrite Hx in HM0.
    pose proof (digits2_bounds mx) as [Hlb _]. fold d in Hlb.
    destruct (pow2_split d Hd) as [_ Ed1]. rewrite Ed1 in Hlb. nia. }
  set (k := er - ex) in *.
  assert (Hk : 0 <= k) by lia.
  set (P := 2 ^ (d - 53)) in *.
  assert (HP : 0 < P) by (apply Z.pow_pos_nonneg; lia).
  set (A := Zpos mr * 2 ^ k) in *.
  assert (HZ : 9007199254740992 * Z.abs (A * D - M) <= M).
  { change (2 ^ 52) with 4503599627370496 in HM. lia. }
  apply IZR_le in HZ. rewrite mult_IZR, abs_IZR, minus_IZR, mult_IZR in HZ.
  assert (HA : (IZR (Zpos mr) * pow2 er = IZR A * pow2 ex)%R).
  { unfold A. rewrite mult_IZR, pow2_IZR by exact Hk.
    replace er with (k + ex) by lia. rewrite pow2_add. ring. }
  rewrite HA. subst t.
  assert (HDr : (0 < IZR D)%R) by (apply IZR_lt; exact HD).
  pose proof (pow2_pos ex) as Hpe.
  pose proof pow2_m53 as Hu.
  set (u := pow2 (-53)) in *.
  replace (IZR A * pow2 ex - IZR M / IZR D * pow2 ex)%R
    with ((IZR A * IZR D - IZR M) * (pow2 ex / IZR D))%R by (field; lra).
  assert (Hq : (0 < pow2 ex / IZR D)%R) by (apply Rdiv_lt_0_compat; assumption).
  rewrite Rabs_mult, (Rabs_pos_eq (pow2 ex / IZR D)) by lra.
  replace (IZR M / IZR D * pow2 ex * u)%R
    with (IZR M * u * (pow2 ex / IZR D))%R by (field; lra).
  apply Rmult_le_compat_r; [lra|].
  set (a := Rabs (IZR A * IZR D - IZR M)) in *.
  assert (a = a * (u * 9007199254740992))%R as -> by (rewrite Hu; ring).
  assert (0 <= u)%R by (unfold u; pose proof (pow2_pos (-53)); lra).
  nra.
Qed.

Lemma normal_inv (x : Number) :
  normal x ->
  exists m e, x = S754_finite false m e /\
    2 ^ 52 <= Zpos m < 2 ^ 53 /\ -1074 <= e <= 971 /\ Zpos (digits2_pos m) = 53.
Proof.
  destruct x as [s|s| |[|] m e]; cbn [normal]; try contradiction.
  intros [Hm He]. exists m, e. repeat split; try lia.
  apply digits2_unique. exact Hm.
Qed.

Lemma to_R_pos (x : Number) : normal x -> (0 < to_R x)%R.
Proof.
  intro H. destruct (normal_inv x H) as [m [e [-> _]]]. cbn [to_R].
  apply Rmult_lt_0_compat; [apply IZR_lt; lia | apply pow2_pos].
Qed.

(** Multiplication of normal numbers. *)
Lemma mul_R (x y : Number) :
  normal x -> normal y ->
  -1126 <= expo x + expo y <= 917 ->
  normal (mul x y) /\
  expo x + expo y + 52 <= expo (mul x y) <= expo x + expo y + 54 /\
  (Rabs (to_R (mul x y) - to_R x * to_R y) <= to_R x * to_R y * pow2 (-53))%R.
Proof.
  intros Hx Hy He.
  destruct (normal_inv x Hx) as [mx [ex [-> [Hmx [Hex Hdx]]]]].
  destruct (normal_inv y Hy) as [my [ey [-> [Hmy [Hey Hdy]]]]].
  cbn [expo] in He |- *. unfold mul. cbn [SFmul xorb].
  pose proof (digits2_bounds (mx * my)) as [Hl Hu].
  set (d := Zpos (digits2_pos (mx * my))) in *.
  assert (Hd : 105 <= d <= 106).
  { rewrite Pos2Z.inj_mul in Hl, Hu.
    change (2 ^ 52) with 4503599627370496 in *.
    change (2 ^ 53) with 9007199254740992 in *.
    assert (H1 : 104 < d).
    { apply (Z.pow_lt_mono_r_iff 2); [lia|lia|].
      change (2 ^ 104) with (4503599627370496 * 4503599627370496). nia. }
    assert (H2 : d - 1 < 106).
    { apply (Z.pow_lt_mono_r_iff 2); [lia|lia|].
      change (2 ^ 106) with (9007199254740992 * 9007199254740992). nia. }
    lia. }
  pose proof (binary_round_aux_R (mx * my) (ex + ey) loc_Exact (Zpos (mx * my)) 1
                ltac:(lia) (located_exact (Zpos (mx * my)) ltac:(lia))) as H.
  cbv zeta in H. fold d in H.
  specialize (H ltac:(lia) ltac:(lia) ltac:(lia)).
  destruct H as [Hn [Hexp Herr]].
  split; [exact Hn|]. split; [lia|].
  cbn [to_R].
  replace (IZR (Zpos mx) * pow2 ex * (IZR (Zpos my) * pow2 ey))%R
    with (IZR (Zpos (mx * my)) / IZR 1 * pow2 (ex + ey))%R; [exact Herr|].
  rewrite Pos2Z.inj_mul, mult_IZR, pow2_add. field.
Qed.

Lemma new_location_located (q D r : Z) :
  0 <= q -> 0 < D -> 0 <= r < D ->
  located (q * D + r) D (shr_record_of_loc q (new_location D r)).
Proof.
  intros Hq HD Hr. unfold new_location, new_location_even, new_location_odd.
  assert (Hodd : Z.even D = false -> 2 * r <> D).
  { intros E Heq. rewrite <- Heq, Z.even_mul in E. discriminate. }
  destruct (Z.even D) eqn:Ev.
  - destruct (Z.eqb_spec r 0) as [->|Hr0].
    + split; [exact Hq|]. exists 0. cbn [shr_record_of_loc shr_m shr_r shr_s].
      split; [lia|]. split; [lia|]. unfold loc_bits. bool_cases; try reflexivity; exfalso; lia.
    + destruct (Z.compare_spec (2 * r) D);
        (split; [exact Hq|]);
        exists r; cbn [shr_record_of_loc shr_m shr_r shr_s];
        (split; [reflexivity|]); (split; [lia|]);
        unfold loc_bits; bool_cases; cbn [negb andb]; try reflexivity; exfalso; lia.
  - specialize (Hodd eq_refl).
    destruct (Z.eqb_spec r 0) as [->|Hr0].
    + split; [exact Hq|]. exists 0. cbn [shr_record_of_loc shr_m shr_r shr_s].
      split; [lia|]. split; [lia|]. unfold loc_bits. bool_cases; try reflexivity; exfalso; lia.
    + destruct (Z.compare_spec (2 * r + 1) D);
        (split; [exact Hq|]);
        exists r; cbn [shr_record_of_loc shr_m shr_r shr_s];
        (split; [reflexivity|]); (split; [lia|]);
        unfold loc_bits; bool_cases; cbn [negb andb]; try reflexivity; exfalso; lia.
Qed.

Lemma SFdiv_core_normal (mx my : positive) (ex ey : Z) :
  Zpos (digits2_pos mx) = 53 -> Zpos (digits2_pos my) = 53 ->
  -1074 <= ex - ey - 53 ->
  SFdiv_core_binary prec emax (Zpos mx) ex (Zpos my) ey =
  (Zpos mx * 2 ^ 53 / Zpos my, ex - ey - 53,
   new_location (Zpos my) ((Zpos mx * 2 ^ 53) mod Zpos my)).
Proof.
  intros Hdx Hdy He.
  unfold SFdiv_core_binary, Zdigits2. rewrite Hdx, Hdy.
  unfold fexp, emin, prec, emax.
  replace (Z.min (Z.max (53 + ex - (53 + ey) - 53) (3 - 1024 - 53)) (ex - ey))
    with (ex - ey - 53) by lia.
  replace (ex - ey - (ex - ey - 53)) with 53 by lia.
  cbv zeta. cbv iota.
  rewrite Z.shiftl_mul_pow2 by lia.
  unfold Z.div, Z.modulo.
  destruct (Z.div_eucl (Zpos mx * 2 ^ 53) (Zpos my)) as [q r]. reflexivity.
Qed.

(** Division of normal numbers. *)
Lemma div_R (x y : Number) :
  normal x -> normal y ->
  -1021 <= expo x - expo y <= 1022 ->
  normal (div x y) /\
  expo x - expo y - 53 <= expo (div x y) <= expo x - expo y - 51 /\
  (Rabs (to_R (div x y) - to_R x / to_R y) <= to_R x / to_R y * pow2 (-53))%R.
Proof.
  intros Hx Hy He.
  destruct (normal_inv x Hx) as [mx [ex [-> [Hmx [Hex Hdx]]]]].
  destruct (normal_inv y Hy) as [my [ey [-> [Hmy [Hey Hdy]]]]].
  cbn [expo] in He |- *. unfold div. cbn [SFdiv xorb].
  rewrite (SFdiv_core_normal mx my ex ey Hdx Hdy) by lia.
  set (N := Zpos mx * 2 ^ 53).
  pose proof (Z.div_mod N (Zpos my) ltac:(lia)) as Hdm.
  pose proof (Z.mod_pos_bound N (Zpos my) ltac:(lia)) as Hmod.
  set (q := N / Zpos my) in *. set (r := N mod Zpos my) in *.
  change (2 ^ 52) with 4503599627370496 in *.
  change (2 ^ 53) with 9007199254740992 in *.
  assert (Hq : 4503599627370496 <= q < 18014398509481984) by (unfold N in Hdm; nia).
  destruct q as [|qp|qp] eqn:Eq; [lia| |lia].
  pose proof (digits2_bounds qp) as [Hl Hu].
  set (d := Zpos (digits2_pos qp)) in *.
  assert (Hd : 53 <= d <= 54).
  { assert (H1 : 52 < d).
    { apply (Z.pow_lt_mono_r_iff 2); [lia|lia|].
      change (2 ^ 52) with 4503599627370496. lia. }
    assert (H2 : d - 1 < 54).
    { apply (Z.pow_lt_mono_r_iff 2); [lia|lia|].
      change (2 ^ 54) with 18014398509481984. lia. }
    lia. }
  assert (HL : located N (Zpos my) (shr_record_of_loc (Zpos qp) (new_location (Zpos my) r))).
  { replace N with (Zpos qp * Zpos my + r) by lia.
    apply new_location_located; lia. }
  pose proof (binary_round_aux_R qp (ex - ey - 53) (new_location (Zpos my) r) N (Zpos my)
                ltac:(lia) HL) as H.
  cbv zeta in H. fold d in H.
  specialize (H ltac:(lia) ltac:(lia) ltac:(lia)).
  destruct H as [Hn [Hexp Herr]].
  split; [exact Hn|]. split; [lia|].
  cbn [to_R].
  replace (IZR (Zpos mx) * pow2 ex / (IZR (Zpos my) * pow2 ey))%R
    with (IZR N / IZR (Zpos my) * pow2 (ex - ey - 53))%R; [exact Herr|].
  unfold N. rewrite mult_IZR.
  replace (ex - ey - 53) with (ex + (- ey) + (-53)) by lia.
  rewrite !pow2_add.
  pose proof pow2_m53 as Hu53.
  pose proof (pow2_pos ey) as Hpey.
  assert (Hinv : (pow2 (- ey) * pow2 ey = 1)%R).
  { rewrite <- pow2_add. replace (- ey + ey) with 0 by lia. reflexivity. }
  assert (Hmy' : (0 < IZR (Zpos my))%R) by (apply IZR_lt; lia).
  set (u := pow2 (-53)) in *. set (a := pow2 (- ey)) in *. set (b := pow2 ey) in *.
  assert (Eu : u = (/ 9007199254740992)%R).
  { apply (Rmult_eq_reg_r 9007199254740992); [|lra]. rewrite Hu53. field. }
  assert (Ea : a = (/ b)%R).
  { apply (Rmult_eq_reg_r b); [|lra]. rewrite Hinv. field. lra. }
  rewrite Eu, Ea. field. lra.
Qed.

Lemma iter_xO (p k : positive) : Zpos (Pos.iter xO p k) = Zpos p * 2 ^ Zpos k.
Proof.
  change (Pos.iter xO p k) with (shift_pos k p).
  rewrite shift_pos_correct. change (Z.pow_pos 2 k) with (2 ^ Zpos k). ring.
Qed.

(** Integers below [2^53] are Numbers, exactly. *)
Lemma of_Z_normal (n : Z) :
  1 <= n < 2 ^ 53 ->
  exists m e, of_Z n = S754_finite false m e /\
    2 ^ 52 <= Zpos m < 2 ^ 53 /\ -52 <= e <= 0 /\ Zpos m = n * 2 ^ (- e).
Proof.
  intros [Hn1 Hn2]. destruct n as [|p|p]; [lia| |lia].
  unfold of_Z, binary_normalize, binary_round.
  pose proof (digits2_bounds p) as [Hl Hu].
  set (d := Zpos (digits2_pos p)) in *.
  assert (Hd : 1 <= d <= 53).
  { split; [unfold d; lia|].
    assert (d - 1 < 53); [|lia].
    apply (Z.pow_lt_mono_r_iff 2); lia. }
  unfold fexp, emin. rewrite Z.add_0_r.
  replace (Z.max (d - prec) (3 - emax - prec)) with (d - 53) by (unfold prec, emax; lia).
  assert (Hsh : exists mz, shl_align p 0 (d - 53) = (mz, d - 53) /\
                           Zpos mz = Zpos p * 2 ^ (53 - d)).
  { unfold shl_align. rewrite Z.sub_0_r.
    destruct (d - 53) as [|k|k] eqn:Ek; [| lia |].
    - exists p. split; [reflexivity|].
      replace (53 - d) with 0 by lia. rewrite Z.pow_0_r. lia.
    - exists (Pos.iter xO p k). split; [reflexivity|].
      rewrite iter_xO. f_equal. f_equal. lia. }
  destruct Hsh as [mz [-> Hmz]].
  assert (Hb : 2 ^ 52 <= Zpos mz < 2 ^ 53).
  { assert (E52 : 2 ^ 52 = 2 ^ (d - 1) * 2 ^ (53 - d))
      by (rewrite <- Z.pow_add_r by lia; f_equal; lia).
    assert (E53 : 2 ^ 53 = 2 ^ d * 2 ^ (53 - d))
      by (rewrite <- Z.pow_add_r by lia; f_equal; lia).
    assert (0 < 2 ^ (53 - d)) by (apply Z.pow_pos_nonneg; lia).
    rewrite E52, E53, Hmz. split.
    - apply Z.mul_le_mono_nonneg_r; lia.
    - apply Z.mul_lt_mono_pos_r; lia. }
  pose proof (digits2_unique mz 53 Hb) as Hdz.
  pose proof (binary_round_aux_normal mz (d - 53) loc_Exact (Zpos mz) 1
                ltac:(lia) (located_exact (Zpos mz) ltac:(lia))) as H.
  cbv zeta in H. rewrite Hdz in H.
  specialize (H ltac:(lia) ltac:(lia) ltac:(lia)).
  destruct H as [mr [er [Ey [Hmr [Her Herr]]]]].
  rewrite Ey.
  change (2 ^ (53 - 53)) with 1 in Herr.
  change (2 ^ 52) with 4503599627370496 in *.
  change (2 ^ 53) with 9007199254740992 in *.
  assert (He : er = d - 53).
  { destruct Her as [E|E]; [lia|]. exfalso.
    replace (er - (d - 53)) with 1 in Herr by lia.
    change (2 ^ 1) with 2 in Herr. lia. }
  subst er. replace (d - 53 - (d - 53)) with 0 in Herr by lia.
  change (2 ^ 0) with 1 in Herr.
  exists mr, (d - 53). split; [reflexivity|]. split; [exact Hmr|].
  split; [lia|].
  replace (- (d - 53)) with (53 - d) by lia. lia.
Qed.

Lemma of_Z_R (n : Z) :
  1 <= n < 2 ^ 53 ->
  normal (of_Z n) /\ -52 <= expo (of_Z n) <= 0 /\ to_R (of_Z n) = IZR n.
Proof.
  intro Hn. destruct (of_Z_normal n Hn) as [m [e [-> [Hm [He Hv]]]]].
  split; [cbn [normal]; split; [exact Hm | lia]|].
  split; [exact He|].
  cbn [to_R]. rewrite Hv, mult_IZR, pow2_IZR by lia.
  rewrite Rmult_assoc, <- pow2_add.
  replace (- e + e) with 0 by lia. unfold pow2. rewrite powerRZ_O. ring.
Qed.

(** Comparison of normal numbers follows their values. *)
Lemma SFcompare_normal (x y : Number) :
  normal x -> normal y ->
  match SFcompare x y with
  | Some Lt => (to_R x < to_R y)%R
  | Some Eq => x = y
  | Some Gt => (to_R y < to_R x)%R
  | None => False
  end.
Proof.
  intros Hx Hy.
  destruct (normal_inv x Hx) as [mx [ex [-> [Hmx [Hex _]]]]].
  destruct (normal_inv y Hy) as [my [ey [-> [Hmy [Hey _]]]]].
  cbn [SFcompare to_R].
  change (2 ^ 52) with 4503599627370496 in *.
  change (2 ^ 53) with 9007199254740992 in *.
  assert (Hstep : forall (a b : positive) (ea eb : Z),
             4503599627370496 <= Zpos a < 9007199254740992 ->
             4503599627370496 <= Zpos b < 9007199254740992 ->
             ea < eb -> (IZR (Zpos a) * pow2 ea < IZR (Zpos b) * pow2 eb)%R).
  { intros a b ea eb Ha Hb Hlt.
    assert (H1 : (pow2 (ea + 1) <= pow2 eb)%R) by (apply pow2_le; lia).
    rewrite pow2_add in H1.
    assert (E1 : pow2 1 = 2%R) by (unfold pow2, powerRZ; simpl; lra).
    rewrite E1 in H1.
    pose proof (pow2_pos ea). pose proof (pow2_pos eb).
    assert (IZR (Zpos a) < 9007199254740992)%R by (apply IZR_lt; lia).
    assert (4503599627370496 <= IZR (Zpos b))%R by (apply IZR_le; lia).
    nra. }
  destruct (Z.compare_spec ex ey) as [E|E|E].
  - subst ey.
    change (Pos.compare_cont Eq mx my) with (Pos.compare mx my).
    pose proof (pow2_pos ex).
    destruct (Pos.compare_spec mx my) as [E|E|E].
    + now subst.
    + apply Rmult_lt_compat_r; [assumption|]. apply IZR_lt. lia.
    + apply Rmult_lt_compat_r; [assumption|]. apply IZR_lt. lia.
  - apply Hstep; assumption.
  - apply Hstep; assumption.
Qed.

(** ** From values to pixels *)

Lemma floor_truncate (y : Number) : normal y -> floor y = truncate y.
Proof.
  intro Hy. destruct (normal_inv y Hy) as [m [e [-> _]]].
  unfold floor. cbn [to_Q truncate].
  destruct (Z.leb_spec 0 e) as [He|He].
  - rewrite Qfloor_Z, Z.shiftl_mul_pow2 by exact He. reflexivity.
  - replace e with (- (- e)) at 2 by lia.
    rewrite Z.shiftl_opp_r, Z.shiftr_div_pow2 by lia.
    assert (HQ : 0 < 2 ^ (- e)) by (apply Z.pow_pos_nonneg; lia).
    cbn [Qfloor]. rewrite Z2Pos.id by exact HQ. reflexivity.
Qed.

Lemma reflect_in_range (d : Z) (x : Number) :
  0 <= truncate x <= 2147483647 -> reflect_unsigned_long d x = truncate x.
Proof.
  intro H. unfold reflect_unsigned_long, to_unsigned_long.
  change (2 ^ 32) with 4294967296.
  rewrite Z.mod_small by lia.
  destruct (Z.leb_spec (truncate x) 2147483647); [reflexivity | lia].
Qed.

(** [Math.max] of two sizes is the larger size. *)
Lemma Math_max_of_Z (a b : Z) :
  0 <= a < 2 ^ 53 -> 0 <= b < 2 ^ 53 ->
  Math_max (of_Z a) (of_Z b) = of_Z (Z.max a b).
Proof.
  intros Ha Hb.
  destruct (Z.eq_dec a 0) as [->|Ha0]; destruct (Z.eq_dec b 0) as [->|Hb0].
  - reflexivity.
  - rewrite Z.max_r by lia.
    destruct (of_Z_normal b ltac:(lia)) as [m [e [-> _]]]. reflexivity.
  - rewrite Z.max_l by lia.
    destruct (of_Z_normal a ltac:(lia)) as [m [e [-> _]]]. reflexivity.
  - destruct (of_Z_R a ltac:(lia)) as [Hna [_ Hva]].
    destruct (of_Z_R b ltac:(lia)) as [Hnb [_ Hvb]].
    pose proof (SFcompare_normal _ _ Hna Hnb) as Hc.
    unfold Math_max.
    destruct (SFcompare (of_Z a) (of_Z b)) as [[| |]|]; [| | |contradiction].
    + assert (a = b).
      { apply eq_IZR. rewrite <- Hva, <- Hvb, Hc. reflexivity. }
      subst b. rewrite Z.max_id.
      destruct (of_Z_normal a ltac:(lia)) as [m [e [-> _]]]. reflexivity.
    + rewrite Hva, Hvb in Hc. apply lt_IZR in Hc. rewrite Z.max_r by lia. reflexivity.
    + rewrite Hva, Hvb in Hc. apply lt_IZR in Hc. rewrite Z.max_l by lia. reflexivity.
Qed.

Lemma Rabs_bounds (a b : R) : (Rabs a <= b)%R -> (- b <= a <= b)%R.
Proof. unfold Rabs. destruct (Rcase_abs a); lra. Qed.

Lemma truncate_spec (y : Number) :
  normal y -> (IZR (truncate y) <= to_R y < IZR (truncate y + 1))%R.
Proof.
  intro Hy. destruct (normal_inv y Hy) as [m [e [-> _]]].
  cbn [truncate to_R].
  destruct (Z.le_gt_cases 0 e) as [He|He].
  - rewrite Z.shiftl_mul_pow2 by exact He.
    rewrite plus_IZR, mult_IZR, pow2_IZR by exact He. lra.
  - assert (Hsh : Z.shiftl (Zpos m) e = Zpos m / 2 ^ (- e)).
    { rewrite <- Z.shiftr_div_pow2 by lia. rewrite <- Z.shiftl_opp_r.
      f_equal. lia. }
    rewrite Hsh.
    assert (HQ : 0 < 2 ^ (- e)) by (apply Z.pow_pos_nonneg; lia).
    assert (Hinv : (pow2 e * IZR (2 ^ (- e)) = 1)%R).
    { rewrite pow2_IZR by lia. rewrite <- pow2_add.
      replace (e + - e) with 0 by lia. reflexivity. }
    set (Q := 2 ^ (- e)) in *.
    pose proof (Z.div_mod (Zpos m) Q ltac:(lia)) as Hdm.
    pose proof (Z.mod_pos_bound (Zpos m) Q HQ) as Hmod.
    set (k := Zpos m / Q) in *.
    assert (H1 : (IZR (k * Q) <= IZR (Zpos m))%R) by (apply IZR_le; lia).
    assert (H2 : (IZR (Zpos m) < IZR ((k + 1) * Q))%R) by (apply IZR_lt; lia).
    rewrite mult_IZR in H1, H2.
    pose proof (pow2_pos e) as Hpe.
    assert (HQr : (0 < IZR Q)%R) by (apply IZR_lt; exact HQ).
    assert (Ek : forall z : R, (z * IZR Q * pow2 e = z)%R)
      by (intro z; rewrite Rmult_assoc, (Rmult_comm (IZR Q)), Hinv; ring).
    split.
    + rewrite <- (Ek (IZR k)). apply Rmult_le_compat_r; lra.
    + rewrite <- (Ek (IZR (k + 1))). apply Rmult_lt_compat_r; lra.
Qed.

Lemma truncate_bounds (y : Number) (lo hi : Z) :
  normal y -> (IZR lo <= to_R y)%R -> (to_R y < IZR (hi + 1))%R ->
  lo <= truncate y <= hi.
Proof.
  intros Hy Hlo Hhi. destruct (truncate_spec y Hy) as [H1 H2]. split.
  - assert (H : (IZR lo < IZR (truncate y + 1))%R) by lra.
    apply lt_IZR in H. lia.
  - assert (H : (IZR (truncate y) < IZR (hi + 1))%R) by lra.
    apply lt_IZR in H. lia.
Qed.

(** The scale factor, and one side multiplied by it. *)
Lemma scale_R (m w : Z) :
  1 <= m < 2 ^ 53 -> 1 <= w < 2 ^ 53 ->
  normal (div (of_Z m) (of_Z w)) /\
  -105 <= expo (div (of_Z m) (of_Z w)) <= 1 /\
  (Rabs (to_R (div (of_Z m) (of_Z w)) - IZR m / IZR w)
   <= IZR m / IZR w * pow2 (-53))%R.
Proof.
  intros Hm Hw.
  destruct (of_Z_R m Hm) as [Hnm [Hem Hvm]].
  destruct (of_Z_R w Hw) as [Hnw [Hew Hvw]].
  destruct (div_R _ _ Hnm Hnw ltac:(lia)) as [Hn [He Herr]].
  rewrite Hvm, Hvw in Herr.
  split; [exact Hn|]. split; [lia | exact Herr].
Qed.

Lemma side_R (x : Z) (s : Number) :
  1 <= x < 2 ^ 53 -> normal s -> -105 <= expo s <= 1 ->
  normal (mul (of_Z x) s) /\
  (Rabs (to_R (mul (of_Z x) s) - IZR x * to_R s) <= IZR x * to_R s * pow2 (-53))%R.
Proof.
  intros Hx Hs Hes.
  destruct (of_Z_R x Hx) as [Hnx [Hex Hvx]].
  destruct (mul_R _ _ Hnx Hs ltac:(lia)) as [Hn [_ Herr]].
  rewrite Hvx in Herr. split; assumption.
Qed.

(** A side [x] of an image whose larger side is [w], scaled for a maximum
    size [m]: the product stays below [m + 1], and above [m - 1] for the
    larger side itself. *)
Lemma scaled_side_R (m w x : Z) :
  1 <= m <= 4294967296 -> 1 <= w <= 4294967296 -> 1 <= x <= w ->
  let p := mul (of_Z x) (div (of_Z m) (of_Z w)) in
  normal p /\ (to_R p < IZR m + 1)%R /\ (x = w -> IZR m - 1 < to_R p)%R.
Proof.
  intros Hm Hw Hx p.
  change (2 ^ 53) with 9007199254740992 in *.
  destruct (scale_R m w ltac:(split; [lia | change (2 ^ 53) with 9007199254740992; lia])
              ltac:(split; [lia | change (2 ^ 53) with 9007199254740992; lia]))
    as [Hns [Hes Hs]].
  destruct (side_R x _ ltac:(split; [lia | change (2 ^ 53) with 9007199254740992; lia])
              Hns Hes) as [Hnp Hp].
  fold p in Hnp, Hp.
  split; [exact Hnp|].
  set (s := to_R (div (of_Z m) (of_Z w))) in *.
  pose proof pow2_m53 as Hu. pose proof (pow2_pos (-53)) as Hu0.
  set (u := pow2 (-53)) in *.
  assert (Hmr : (1 <= IZR m <= 4294967296)%R) by (split; apply IZR_le; lia).
  assert (Hwr : (1 <= IZR w)%R) by (apply IZR_le; lia).
  assert (Hxr : (1 <= IZR x <= IZR w)%R) by (split; apply IZR_le; lia).
  set (r := (IZR m / IZR w)%R) in *.
  assert (Hr : (r * IZR w = IZR m)%R) by (unfold r; field; lra).
  assert (Hr0 : (0 < r)%R) by (unfold r; apply Rdiv_lt_0_compat; lra).
  apply Rabs_bounds in Hs. apply Rabs_bounds in Hp.
  assert (Hs0 : (0 < s)%R) by (apply to_R_pos; exact Hns).
  (* [t] is what one rounding can add to or take from [m] *)
  assert (Ht : (IZR m * u <= / 2097152)%R).
  { assert (IZR m * u * 9007199254740992 <= 4294967296)%R
      by (rewrite Rmult_assoc, Hu; lra).
    lra. }
  assert (Hu1 : (u <= / 2097152)%R) by nra.
  assert (Hxr' : (IZR x * r <= IZR m)%R) by nra.
  assert (Hxs : (IZR x * s <= IZR m * (1 + u))%R) by nra.
  split.
  - assert (to_R p <= IZR m * (1 + u) * (1 + u))%R by nra.
    nra.
  - intros ->.
    assert (Hws : (IZR m * (1 - u) <= IZR w * s)%R) by nra.
    assert (IZR m * (1 - u) * (1 - u) <= to_R p)%R by nra.
    nra.
Qed.

(** A side in pixels: the product cut to its integer part, between [0] and
    [m], and at least [m - 1] for the larger side. *)
Lemma scaled_side_px (d m w x : Z) :
  1 <= m <= 2147483647 -> 1 <= w <= 4294967295 -> 0 <= x <= w ->
  let p := mul (of_Z x) (div (of_Z m) (of_Z w)) in
  reflect_unsigned_long d p = floor p /\
  0 <= floor p <= m /\
  (x = w -> m - 1 <= floor p).
Proof.
  intros Hm Hw Hx p.
  destruct (Z.eq_dec x 0) as [->|Hx0].
  - assert (Hns : normal (div (of_Z m) (of_Z w))).
    { apply scale_R; (split; [lia | change (2 ^ 53) with 9007199254740992; lia]). }
    destruct (normal_inv _ Hns) as [ms [es [Es _]]].
    assert (Ep : p = S754_zero false) by (unfold p; rewrite Es; reflexivity).
    rewrite Ep. split; [reflexivity|]. split; [cbn; lia | intro; lia].
  - destruct (scaled_side_R m w x ltac:(lia) ltac:(lia) ltac:(lia)) as [Hn [Hhi Hlo]].
    fold p in Hn, Hhi, Hlo.
    pose proof (to_R_pos p Hn) as Hpos.
    assert (Hb : 0 <= truncate p <= m).
    { apply truncate_bounds; [exact Hn | lra | rewrite plus_IZR; lra]. }
    rewrite (floor_truncate p Hn).
    split; [apply reflect_in_range; lia|]. split; [exact Hb|].
    intro E. specialize (Hlo E).
    assert (Hb' : m - 1 <= truncate p <= m).
    { apply truncate_bounds; [exact Hn | rewrite minus_IZR; lra | rewrite plus_IZR; lra]. }
    lia.
Qed.

Lemma scale_of_max (m w h : Z) :
  0 <= w <= 4294967295 -> 0 <= h <= 4294967295 ->
  scale_of (of_Z m) w h = div (of_Z m) (of_Z (Z.max w h)).
Proof.
  intros Hw Hh. unfold scale_of. rewrite Math_max_of_Z; [reflexivity | |];
    (split; [lia | change (2 ^ 53) with 9007199254740992; lia]).
Qed.

(** The surface [render] makes, for sizes and a maximum size in range. *)
Lemma render_sides (i : Img) (m : Z) :
  0 <= width i <= 4294967295 -> 0 <= height i <= 4294967295 ->
  1 <= Z.max (width i) (height i) -> 1 <= m <= 2147483647 ->
  surface (render (of_Z m) i) = floored_surface (of_Z m) (width i) (height i) /\
  0 <= cwidth (render (of_Z m) i) <= m /\
  0 <= cheight (render (of_Z m) i) <= m /\
  m - 1 <= larger_side (render (of_Z m) i) <= m.
Proof.
  intros Hw Hh Hmax Hm.
  unfold surface, larger_side, floored_surface, render.
  cbn [cwidth cheight drawImage set_width set_height].
  rewrite (scale_of_max m _ _ Hw Hh).
  set (wm := Z.max (width i) (height i)) in *.
  destruct (scaled_side_px 300 m wm (width i) Hm ltac:(lia) ltac:(lia)) as [Ew [Hbw Hlw]].
  destruct (scaled_side_px 150 m wm (height i) Hm ltac:(lia) ltac:(lia)) as [Eh [Hbh Hlh]].
  cbv zeta in Ew, Eh, Hbw, Hbh, Hlw, Hlh.
  rewrite Ew, Eh.
  split; [reflexivity|]. split; [exact Hbw|]. split; [exact Hbh|].
  destruct (Z.max_spec (width i) (height i)) as [[_ E]|[_ E]]; fold wm in E.
  - specialize (Hlh (eq_sym E)). lia.
  - specialize (Hlw (eq_sym E)). lia.
Qed.

(** Enlarging: the scale factor of a smaller image exceeds one. *)
Lemma scale_gt_one (m w : Z) :
  1 <= w -> w < m -> m <= 4294967296 ->
  gt_one (div (of_Z m) (of_Z w)) = true.
Proof.
  intros Hw Hwm Hm.
  assert (H53 : forall z, 1 <= z <= 4294967296 -> 1 <= z < 2 ^ 53)
    by (intros z Hz; split; [lia | change (2 ^ 53) with 9007199254740992; lia]).
  destruct (scale_R m w (H53 m ltac:(lia)) (H53 w ltac:(lia))) as [Hns [_ Hs]].
  destruct (of_Z_R 1 (H53 1 ltac:(lia))) as [Hn1 [_ Hv1]].
  pose proof (SFcompare_normal _ _ Hn1 Hns) as Hc.
  set (s := div (of_Z m) (of_Z w)) in *.
  assert (Hgt : (1 < to_R s)%R).
  { apply Rabs_bounds in Hs.
    pose proof pow2_m53 as Hu. pose proof (pow2_pos (-53)) as Hu0.
    set (u := pow2 (-53)) in *.
    assert (Hwr : (1 <= IZR w <= 4294967295)%R) by (split; apply IZR_le; lia).
    assert (Hmr : (IZR w + 1 <= IZR m)%R) by (rewrite <- plus_IZR; apply IZR_le; lia).
    set (r := (IZR m / IZR w)%R) in *.
    assert (Hr : (r * IZR w = IZR m)%R) by (unfold r; field; lra).
    assert (Hr0 : (0 < r)%R) by (unfold r; apply Rdiv_lt_0_compat; lra).
    assert (Hu1 : (u * 4294967296 <= / 2097152)%R) by lra.
    assert (H1 : (IZR w < r * (1 - u) * IZR w)%R) by nra.
    assert (H2 : (1 < r * (1 - u))%R) by nra.
    lra. }
  unfold gt_one, SFltb.
  destruct (SFcompare (of_Z 1) s) as [[| |]|]; [| reflexivity | | contradiction].
  - rewrite <- Hc, Hv1 in Hgt. lra.
  - rewrite Hv1 in Hc. lra.
Qed.

(** * The callback chain *)

Section Chain.
Variable P : Platform.

Lemma run_steps (n : nat) (st : State) : steps P st (run P n st).
Proof.
  revert st; induction n as [|n IH]; intro st; simpl.
  - apply steps_refl.
  - destruct (step P st) as [st'|] eqn:E.
    + eapply steps_next; [exact E | apply IH].
    + apply steps_refl.
Qed.

Lemma steps_quiescent (st st' : State) :
  quiescent st -> steps P st st' -> st' = st.
Proof.
  intros Hq Hs. destruct Hs as [|st st' st'' E _]; [reflexivity|].
  unfold step in E. rewrite Hq in E. discriminate.
Qed.

(** The read fails: an [error] event fires and nobody listens. *)
Lemma compressImage_unreadable (f : File.t) (m : option Number) :
  readable P f = false ->
  compressImage P f m =
  {| file := f; maxSize := or_default m; promise := Pending; tasks := [];
     canvas := None; outputs := []; resolve_calls := O |}.
Proof.
  intro Hr. unfold compressImage, executor.
  cbn [run step tasks handle with_tasks file maxSize promise canvas outputs resolve_calls].
  rewrite Hr. reflexivity.
Qed.

(** The image does not decode: again an [error] event without listener. *)
Lemma compressImage_undecodable (f : File.t) (m : option Number) :
  readable P f = true -> decode_image P (data_url f) = None ->
  compressImage P f m =
  {| file := f; maxSize := or_default m; promise := Pending; tasks := [];
     canvas := None; outputs := []; resolve_calls := O |}.
Proof.
  intros Hr Hd. unfold compressImage, executor.
  cbn [run step tasks handle with_tasks file maxSize promise canvas outputs
       resolve_calls reader_onload enqueue app].
  rewrite Hr.
  cbn [run step tasks handle with_tasks file maxSize promise canvas outputs
       resolve_calls reader_onload enqueue app].
  rewrite Hd. reflexivity.
Qed.

(** The image decodes at [w] by [h]: the chain runs to the [resolve] call. *)
Lemma compressImage_decoded (f : File.t) (m : option Number) (w h : Z) :
  readable P f = true -> decode_image P (data_url f) = Some (w, h) ->
  let c := render (or_default m) {| src := data_url f; width := w; height := h |} in
  let v := new_File [toBlob P c jpeg lit_0_7] (File.name f) jpeg (date_now P) in
  compressImage P f m =
  {| file := f; maxSize := or_default m; promise := Fulfilled v; tasks := [];
     canvas := Some c; outputs := [v]; resolve_calls := 1%nat |}.
Proof.
  intros Hr Hd. unfold compressImage, executor.
  cbn [run step tasks handle with_tasks file maxSize promise canvas outputs
       resolve_calls reader_onload enqueue app].
  rewrite Hr.
  cbn [run step tasks handle with_tasks file maxSize promise canvas outputs
       resolve_calls reader_onload enqueue app].
  rewrite Hd.
  cbn [run step tasks handle with_tasks file maxSize promise canvas outputs
       resolve_calls reader_onload img_onload blob_callback resolve enqueue app].
  reflexivity.
Qed.

(** The three ways a call can end. *)
Lemma compressImage_cases (f : File.t) (m : option Number) :
  (readable P f = false) \/
  (readable P f = true /\ decode_image P (data_url f) = None) \/
  (readable P f = true /\ exists w h, decode_image P (data_url f) = Some (w, h)).
Proof.
  destruct (readable P f); [|now left].
  destruct (decode_image P (data_url f)) as [[w h]|] eqn:E.
  - right; right. split; [reflexivity|]. now exists w, h.
  - right; left. now split.
Qed.

Lemma chain_inv_executor (f : File.t) (m : Number) : chain_inv f (executor f m).
Proof.
  split; [reflexivity|]. left. cbn. repeat split; auto.
Qed.

Lemma chain_inv_step (f : File.t) (st st' : State) :
  chain_inv f st -> step P st = Some st' -> chain_inv f st'.
Proof.
  intros [Hf [[Hp [Ho [Hc Hl]]]|[v [Hp [Ho [Hc Ht]]]]]] E; unfold step in E.
  - destruct (tasks st) as [|t [|t' rest]] eqn:Et; [discriminate| |cbn in Hl; lia].
    injection E as <-.
    destruct t as [b|url|c ty q]; cbn [handle].
    + destruct (readable P b); split; cbn; auto; left; cbn; auto.
    + destruct (decode_image P url) as [[w h]|]; split; cbn; auto; left; cbn; auto.
    + split; [exact Hf|]. right. cbn. rewrite Hp, Ho, Hc.
      eexists; repeat split; reflexivity.
  - rewrite Ht in E. discriminate.
Qed.

Lemma chain_inv_steps (f : File.t) (st st' : State) :
  steps P st st' -> chain_inv f st -> chain_inv f st'.
Proof.
  induction 1 as [|st st' st'' E _ IH]; intro Hi; [exact Hi|].
  apply IH. eapply chain_inv_step; eauto.
Qed.

(** [resolve] on a settled promise changes nothing about the promise. *)
Lemma handle_settled (t : Task) (st : State) :
  promise st <> Pending -> promise (handle P t st) = promise st.
Proof.
  intro Hp. destruct t as [b|url|c ty q]; cbn [handle].
  - destruct (readable P b); reflexivity.
  - destruct (decode_image P url) as [[w h]|]; reflexivity.
  - cbn. destruct (promise st); congruence.
Qed.

Lemma steps_settled (st st' : State) :
  steps P st st' -> promise st <> Pending -> promise st' = promise st.
Proof.
  induction 1 as [|st st' st'' E _ IH]; intro Hp; [reflexivity|].
  unfold step in E. destruct (tasks st) as [|t rest]; [discriminate|].
  injection E as <-.
  assert (H : promise (handle P t (with_tasks rest st)) = promise st)
    by (apply (handle_settled t (with_tasks rest st)); exact Hp).
  rewrite IH; [exact H | rewrite H; exact Hp].
Qed.

End Chain.

(** * Failures *)

(** C1 as written fails: a file that does not decode leaves the promise
    pending, it is not rejected. *)
Lemma decode_failure_not_rejected :
  decode_failure TestCodec.platform TestCodec.corrupt /\
  ~ settles_rejected (compressImage TestCodec.platform TestCodec.corrupt None).
Proof.
  split.
  - reflexivity.
  - intros [reason H]. vm_compute in H. discriminate.
Qed.

(** C1, amended: for every file whose bytes do not decode, the promise
    returned by compressImage never settles: the chain stops with the promise
    pending, nothing in flight, and no later state differs. *)
Theorem decode_failure_never_settles (P : Platform) (f : File.t) (m : option Number) :
  decode_failure P f ->
  promise (compressImage P f m) = Pending /\
  quiescent (compressImage P f m) /\
  forall st', steps P (compressImage P f m) st' -> st' = compressImage P f m.
Proof.
  intro Hd.
  assert (E : compressImage P f m =
              {| file := f; maxSize := or_default m; promise := Pending; tasks := [];
                 canvas := None; outputs := []; resolve_calls := O |}).
  { destruct (readable P f) eqn:Hr.
    - apply compressImage_undecodable; assumption.
    - apply compressImage_unreadable; assumption. }
  assert (Hq : quiescent (compressImage P f m)) by (rewrite E; reflexivity).
  split; [rewrite E; reflexivity|].
  split; [exact Hq|].
  intros st' Hs. apply (steps_quiescent P _ _ Hq Hs).
Qed.

Lemma decode_failure_never_settles_witness :
  decode_failure TestCodec.platform TestCodec.corrupt /\
  promise (compressImage TestCodec.platform TestCodec.corrupt None) = Pending.
Proof.
  assert (H : decode_failure TestCodec.platform TestCodec.corrupt)
    by reflexivity.
  split; [exact H|].
  exact (proj1 (decode_failure_never_settles TestCodec.platform TestCodec.corrupt None H)).
Defined.

(** ** A zero maximum size *)

Lemma div_zero_l (z : Number) : zero_or_nan (div (S754_zero false) z).
Proof. destruct z; exact I. Qed.

Lemma mul_zero_or_nan_r (x s : Number) : zero_or_nan s -> zero_or_nan (mul x s).
Proof. destruct x, s; simpl; intro H; try exact I; contradiction. Qed.

Lemma reflect_zero_or_nan (d : Z) (x : Number) :
  zero_or_nan x -> reflect_unsigned_long d x = 0.
Proof. destruct x; simpl; intro H; try contradiction; reflexivity. Qed.

Lemma render_zero (i : Img) : surface (render (S754_zero false) i) = (0, 0).
Proof.
  unfold surface, render, scale_of; cbn [cwidth cheight drawImage set_width set_height].
  rewrite !reflect_zero_or_nan; [reflexivity | | ];
    apply mul_zero_or_nan_r, div_zero_l.
Qed.

Lemma toBlob_empty (P : Platform) (c : Canvas) (ty : string) (q : Number) :
  cwidth c = 0 \/ cheight c = 0 -> toBlob P c ty q = None.
Proof.
  intro H. unfold toBlob.
  destruct H as [-> | ->]; [reflexivity | now rewrite orb_true_r].
Qed.

(** C3 as written fails: with a maximum size of zero the promise is
    fulfilled, not rejected. *)
Lemma zero_maxSize_not_rejected :
  decode_image TestCodec.platform (data_url (TestCodec.picture "a.png" 2000 1000))
    = Some (2000, 1000) /\
  ~ settles_rejected
      (compressImage TestCodec.platform (TestCodec.picture "a.png" 2000 1000)
         (Some (of_Z 0))).
Proof.
  split; [reflexivity|].
  intros [reason H]. vm_compute in H. discriminate.
Qed.

(** C3, amended: called with maxDimension = 0 on any decodable image,
    compressImage makes a 0 by 0 surface, toBlob hands its callback null, and
    the promise is fulfilled with a file of type image/jpeg that has the
    source's name and the four bytes of the text null as content; it is not
    rejected. *)
Theorem zero_maxSize_resolves_null_file (P : Platform) (f : File.t) (w h : Z) :
  readable P f = true -> decode_image P (data_url f) = Some (w, h) ->
  (exists c, canvas (compressImage P f (Some (of_Z 0))) = Some c /\ surface c = (0, 0)) /\
  promise (compressImage P f (Some (of_Z 0)))
    = Fulfilled (File.make (File.name f) jpeg (date_now P) null_text) /\
  ~ settles_rejected (compressImage P f (Some (of_Z 0))).
Proof.
  intros Hr Hd.
  rewrite (compressImage_decoded P f (Some (of_Z 0)) w h Hr Hd).
  cbn [canvas promise or_default].
  change (of_Z 0) with (S754_zero false).
  set (i := {| src := data_url f; width := w; height := h |}).
  pose proof (render_zero i) as Hs.
  assert (Hb : toBlob P (render (S754_zero false) i) jpeg lit_0_7 = None).
  { apply toBlob_empty. left. unfold surface in Hs. congruence. }
  split; [eexists; split; [reflexivity | exact Hs]|].
  rewrite Hb. split; [reflexivity|].
  intros [reason H]. cbn in H. discriminate.
Qed.

Lemma zero_maxSize_resolves_null_file_witness :
  promise (compressImage TestCodec.platform (TestCodec.picture "a.png" 2000 1000)
             (Some (of_Z 0)))
  = Fulfilled (File.make "a.png" jpeg 1700000000000 null_text).
Proof.
  exact (proj1 (proj2 (zero_maxSize_resolves_null_file TestCodec.platform
    (TestCodec.picture "a.png" 2000 1000) 2000 1000 eq_refl eq_refl))).
Defined.

(** ** No rejection path *)





(** * The output file *)

Lemma toBlob_nonempty (P : Platform) (c : Canvas) (ty : string) (q : Number) :
  cwidth c <> 0 -> cheight c <> 0 -> toBlob P c ty q = serialize_bitmap P c ty q.
Proof.
  intros Hw Hh. unfold toBlob.
  destruct (Z.eqb_spec (cwidth c) 0); [contradiction|].
  destruct (Z.eqb_spec (cheight c) 0); [contradiction|]. reflexivity.
Qed.

(** The test codec reads back what it writes. *)
Lemma Z_of_byte_of_Z (z : Z) : TestCodec.Z_of_byte (TestCodec.byte_of_Z z) = z mod 256.
Proof.
  unfold TestCodec.Z_of_byte, TestCodec.byte_of_Z.
  pose proof (Z.mod_pos_bound z 256 ltac:(lia)) as Hb.
  destruct (Byte.of_N (Z.to_N (z mod 256))) as [b|] eqn:E.
  - rewrite (Byte.to_of_N _ E). apply Z2N.id. lia.
  - apply Byte.of_N_None_iff in E. lia.
Qed.

Lemma TestCodec_round_trip : round_trip TestCodec.platform.
Proof.
  intros c ty q b u Hw Hh Hs Hu.
  cbn [serialize_bitmap TestCodec.platform] in Hs. unfold TestCodec.serialize in Hs.
  destruct (Z.ltb_spec (cwidth c) 65536) as [Hw'|]; [|discriminate].
  destruct (Z.ltb_spec (cheight c) 65536) as [Hh'|]; [|discriminate].
  cbn [andb] in Hs. injection Hs as <-. cbn [blob_bytes] in Hu.
  cbn [decode_image TestCodec.platform]. unfold TestCodec.decode, TestCodec.header in *.
  rewrite Hu. rewrite !Z_of_byte_of_Z.
  f_equal. f_equal.
  - rewrite (Z.mod_small (cwidth c / 256))
      by (split; [apply Z.div_pos; lia | apply Z.div_lt_upper_bound; lia]).
    symmetry. apply Z.div_mod. lia.
  - rewrite (Z.mod_small (cheight c / 256))
      by (split; [apply Z.div_pos; lia | apply Z.div_lt_upper_bound; lia]).
    symmetry. apply Z.div_mod. lia.
Qed.

Lemma render_nonneg (m : Number) (i : Img) :
  0 <= cwidth (render m i) /\ 0 <= cheight (render m i).
Proof.
  unfold render. cbn [cwidth cheight drawImage set_width set_height].
  unfold reflect_unsigned_long, to_unsigned_long.
  split; match goal with |- context [?a mod ?b] =>
    pose proof (Z.mod_pos_bound a b ltac:(reflexivity)) end;
    destruct (_ <=? _); lia.
Qed.

(** When the surface has pixels and serialises, the promise holds the
    serialisation as a file, and a codec that reads back what it wrote
    decodes that file at the size of the surface. *)
Lemma compressImage_serialized (P : Platform) (f : File.t) (m : option Number)
    (w h : Z) (b : Blob) :
  readable P f = true -> decode_image P (data_url f) = Some (w, h) ->
  let c := render (or_default m) {| src := data_url f; width := w; height := h |} in
  cwidth c <> 0 -> cheight c <> 0 ->
  serialize_bitmap P c jpeg lit_0_7 = Some b ->
  promise (compressImage P f m)
    = Fulfilled (File.make (File.name f) jpeg (date_now P) (blob_bytes b)) /\
  (round_trip P ->
   output_size P (compressImage P f m) = Some (cwidth c, cheight c)).
Proof.
  intros Hr Hd c Hw Hh Hs.
  unfold output_size.
  rewrite (compressImage_decoded P f m w h Hr Hd). cbn [promise]. fold c.
  rewrite (toBlob_nonempty P c jpeg lit_0_7 Hw Hh), Hs.
  unfold new_File. cbn [List.map List.concat part_bytes]. rewrite app_nil_r.
  split; [reflexivity|].
  intro Hrt.
  destruct (render_nonneg (or_default m) {| src := data_url f; width := w; height := h |}).
  apply (Hrt c jpeg lit_0_7 b); try assumption. reflexivity.
Qed.

(** When a side of the surface is 0 or the serialisation fails, the promise
    holds the text [null]. *)
Lemma compressImage_null (P : Platform) (f : File.t) (m : option Number) (w h : Z) :
  readable P f = true -> decode_image P (data_url f) = Some (w, h) ->
  let c := render (or_default m) {| src := data_url f; width := w; height := h |} in
  cwidth c = 0 \/ cheight c = 0 \/ serialize_bitmap P c jpeg lit_0_7 = None ->
  promise (compressImage P f m)
  = Fulfilled (File.make (File.name f) jpeg (date_now P) null_text).
Proof.
  intros Hr Hd c Hn.
  rewrite (compressImage_decoded P f m w h Hr Hd). cbn [promise]. fold c.
  assert (Hb : toBlob P c jpeg lit_0_7 = None).
  { destruct Hn as [Hn | [Hn | Hn]].
    - apply toBlob_empty. now left.
    - apply toBlob_empty. now right.
    - unfold toBlob. destruct (_ || _); [reflexivity | exact Hn]. }
  rewrite Hb. reflexivity.
Qed.

(** C7: on a decodable 2000 by 1000 image with maxDimension = 512 the
    surface is exactly 512 by 256 with the whole image drawn onto it; with a
    codec that serialises a 512 by 256 surface and reads back what it wrote,
    the promise is fulfilled with that serialisation and the output image
    has dimensions exactly 512 by 256. *)
Theorem scenario_2000x1000_at_512 (P : Platform) (f : File.t) :
  round_trip P ->
  (forall c, surface c = (512, 256) -> serialize_bitmap P c jpeg lit_0_7 <> None) ->
  readable P f = true -> decode_image P (data_url f) = Some (2000, 1000) ->
  output_size P (compressImage P f (Some (of_Z 512))) = Some (512, 256) /\
  exists c b,
    canvas (compressImage P f (Some (of_Z 512))) = Some c /\
    surface c = (512, 256) /\
    option_map (fun d => (dw d, dh d)) (drawn c) = Some (512, 256) /\
    serialize_bitmap P c jpeg lit_0_7 = Some b /\
    promise (compressImage P f (Some (of_Z 512)))
      = Fulfilled (File.make (File.name f) jpeg (date_now P) (blob_bytes b)).
Proof.
  intros Hrt Hser Hr Hd.
  set (c := render (of_Z 512) {| src := data_url f; width := 2000; height := 1000 |}).
  assert (Hsurf : surface c = (512, 256)) by reflexivity.
  destruct (serialize_bitmap P c jpeg lit_0_7) as [b|] eqn:Hs;
    [|exfalso; exact (Hser c Hsurf Hs)].
  destruct (compressImage_serialized P f (Some (of_Z 512)) 2000 1000 b Hr Hd)
    as [Hp Ho]; [vm_compute; discriminate | vm_compute; discriminate | exact Hs |].
  split; [exact (Ho Hrt)|].
  exists c, b.
  rewrite (compressImage_decoded P f (Some (of_Z 512)) 2000 1000 Hr Hd) in Hp |- *.
  cbn [canvas promise or_default] in Hp |- *.
  split; [reflexivity|]. split; [reflexivity|]. split; [reflexivity|].
  split; [exact Hs | exact Hp].
Qed.

Lemma scenario_2000x1000_at_512_witness :
  output_size TestCodec.platform
    (compressImage TestCodec.platform (TestCodec.picture "a.png" 2000 1000)
       (Some (of_Z 512))) = Some (512, 256).
Proof.
  refine (proj1 (scenario_2000x1000_at_512 TestCodec.platform
           (TestCodec.picture "a.png" 2000 1000)
           TestCodec_round_trip _ eq_refl eq_refl)).
  intros c Hc. unfold surface in Hc. apply pair_equal_spec in Hc. destruct Hc as [Hw Hh].
  cbn [serialize_bitmap TestCodec.platform]. unfold TestCodec.serialize.
  rewrite Hw, Hh. discriminate.
Defined.

(** The same scenario through the test codec: the output file decodes at
    512 by 256. *)
Example scenario_2000x1000_output_decodes :
  match promise (compressImage TestCodec.platform
                   (TestCodec.picture "a.png" 2000 1000) None) with
  | Fulfilled v => TestCodec.decode (data_url v) = Some (512, 256)
  | _ => False
  end.
Proof. reflexivity. Qed.

(** C8 as written fails: a 2000 by 3 image at the default maxSize is
    fulfilled with a file typed image/jpeg whose content is the text null,
    which no serialisation at any quality produces. *)
Lemma null_file_is_not_an_encoding :
  exists v,
    promise (compressImage TestCodec.platform (TestCodec.picture "a.png" 2000 3) None)
      = Fulfilled v /\
    File.type v = "image/jpeg"%string /\
    File.content v = null_text /\
    forall c type quality b,
      serialize_bitmap TestCodec.platform c type quality = Some b ->
      File.content v <> blob_bytes b.
Proof.
  eexists. split; [reflexivity|]. split; [reflexivity|]. split; [reflexivity|].
  intros c ty q b Hs. cbn [serialize_bitmap TestCodec.platform] in Hs.
  unfold TestCodec.serialize in Hs.
  destruct (_ && _); [|discriminate]. injection Hs as <-.
  cbn. discriminate.
Qed.

(** C8, amended: whatever the input's format or MIME type, a file that
    compressImage resolves with has type image/jpeg and the source's name;
    when the surface has pixels and serialises, its content is the
    serialisation asked for as image/jpeg at quality 0.7; when a side of the
    surface is 0 or the serialisation fails, its content is the text null,
    not an encoding. *)
Theorem output_is_jpeg_at_quality_0_7 (P : Platform) (f : File.t) (m : option Number)
    (v : File.t) :
  promise (compressImage P f m) = Fulfilled v ->
  File.type v = "image/jpeg"%string /\
  File.name v = File.name f /\
  exists c, canvas (compressImage P f m) = Some c /\
    ((cwidth c <> 0 /\ cheight c <> 0 /\
      exists b, serialize_bitmap P c "image/jpeg" lit_0_7 = Some b /\
                File.content v = blob_bytes b) \/
     ((cwidth c = 0 \/ cheight c = 0 \/
       serialize_bitmap P c "image/jpeg" lit_0_7 = None) /\
      File.content v = null_text)).
Proof.
  intro H.
  destruct (compressImage_cases P f m) as [Hr | [[Hr Hd] | [Hr [w [h Hd]]]]].
  - rewrite (compressImage_unreadable P f m Hr) in H. discriminate.
  - rewrite (compressImage_undecodable P f m Hr Hd) in H. discriminate.
  - rewrite (compressImage_decoded P f m w h Hr Hd) in H |- *.
    cbn [promise canvas] in H |- *. injection H as <-.
    split; [reflexivity|]. split; [reflexivity|].
    eexists. split; [reflexivity|].
    set (c := render (or_default m) {| src := data_url f; width := w; height := h |}).
    fold jpeg. unfold new_File. cbn [File.content map List.concat].
    rewrite app_nil_r. unfold toBlob.
    destruct (Z.eqb_spec (cwidth c) 0) as [E|Hw0]; [right; split; [now left | reflexivity]|].
    destruct (Z.eqb_spec (cheight c) 0) as [E|Hh0];
      [right; split; [right; now left | reflexivity]|].
    cbn [orb].
    destruct (serialize_bitmap P c jpeg lit_0_7) as [b|] eqn:Hs.
    + left. split; [exact Hw0|]. split; [exact Hh0|]. exists b. now split.
    + right. split; [right; now right | reflexivity].
Qed.

Lemma output_is_jpeg_at_quality_0_7_witness :
  exists v,
    promise (compressImage TestCodec.platform (TestCodec.picture "a.png" 2000 1000) None)
      = Fulfilled v /\
    File.type v = "image/jpeg"%string /\
    exists c b,
      canvas (compressImage TestCodec.platform (TestCodec.picture "a.png" 2000 1000) None)
        = Some c /\
      serialize_bitmap TestCodec.platform c "image/jpeg" lit_0_7 = Some b /\
      File.content v = blob_bytes b.
Proof.
  eexists. split; [reflexivity|].
  destruct (output_is_jpeg_at_quality_0_7 TestCodec.platform
    (TestCodec.picture "a.png" 2000 1000) None _ eq_refl)
    as [Ht [_ [c [Hc [[_ [_ [b [Hs Hb]]]] | [_ Hn]]]]]].
  - split; [exact Ht|]. exists c, b. repeat split; assumption.
  - vm_compute in Hn. discriminate.
Defined.

(** * Settlement and the caller's file *)

(** C9: in every state a call passes through, resolve has been called at
    most once and as many output files exist as resolve calls; a fulfilled
    promise holds the one file that was made, a pending one has none, the
    promise is never rejected, and once it is settled no later state changes
    it. *)
Theorem settles_at_most_once (P : Platform) (f : File.t) (m : Number) (st : State) :
  steps P (executor f m) st ->
  (resolve_calls st <= 1)%nat /\
  List.length (outputs st) = resolve_calls st /\
  (forall v, promise st = Fulfilled v -> outputs st = [v]) /\
  (promise st = Pending -> outputs st = []) /\
  ~ settles_rejected st /\
  (forall st', steps P st st' -> promise st <> Pending -> promise st' = promise st).
Proof.
  intro Hs.
  pose proof (chain_inv_steps P f _ _ Hs (chain_inv_executor f m)) as [_ Hi].
  assert (Hstay : forall st', steps P st st' -> promise st <> Pending ->
                              promise st' = promise st)
    by (intros st' Hs'; apply (steps_settled P); exact Hs').
  destruct Hi as [[Hp [Ho [Hc _]]] | [v [Hp [Ho [Hc _]]]]];
    rewrite Hc, Ho;
    (split; [cbn; lia|]); (split; [reflexivity|]);
    (split; [intros v' Hv'; congruence|]); (split; [intro; congruence|]);
    (split; [intros [r Hr]; congruence | exact Hstay]).
Qed.

Lemma settles_at_most_once_witness :
  steps TestCodec.platform
    (executor (TestCodec.picture "a.png" 2000 1000) default_maxSize)
    (compressImage TestCodec.platform (TestCodec.picture "a.png" 2000 1000) None) /\
  (resolve_calls
     (compressImage TestCodec.platform (TestCodec.picture "a.png" 2000 1000) None)
   <= 1)%nat.
Proof.
  assert (H : steps TestCodec.platform
    (executor (TestCodec.picture "a.png" 2000 1000) default_maxSize)
    (compressImage TestCodec.platform (TestCodec.picture "a.png" 2000 1000) None)).
  { unfold compressImage.
    eapply steps_next; [reflexivity|].
    eapply steps_next; [reflexivity|].
    eapply steps_next; [reflexivity|].
    apply steps_refl. }
  split; [exact H|].
  exact (proj1 (settles_at_most_once TestCodec.platform _ _ _ H)).
Defined.

(** C10: in every state a call passes through, and so in the state it ends
    in whether the promise was fulfilled or not, the caller's file has the
    name, MIME type, timestamp and bytes it was passed with. *)
Theorem source_file_unchanged (P : Platform) (f : File.t) (m : Number) (st : State) :
  steps P (executor f m) st ->
  file st = f /\
  File.name (file st) = File.name f /\
  File.type (file st) = File.type f /\
  File.content (file st) = File.content f.
Proof.
  intro Hs.
  pose proof (chain_inv_steps P f _ _ Hs (chain_inv_executor f m)) as [Hf _].
  rewrite Hf. repeat split.
Qed.

Lemma source_file_unchanged_witness :
  steps TestCodec.platform (executor TestCodec.corrupt default_maxSize)
    (compressImage TestCodec.platform TestCodec.corrupt None) /\
  file (compressImage TestCodec.platform TestCodec.corrupt None) = TestCodec.corrupt.
Proof.
  assert (H : steps TestCodec.platform (executor TestCodec.corrupt default_maxSize)
    (compressImage TestCodec.platform TestCodec.corrupt None)).
  { unfold compressImage.
    eapply steps_next; [reflexivity|].
    eapply steps_next; [reflexivity|].
    apply steps_refl. }
  split; [exact H|].
  exact (proj1 (source_file_unchanged TestCodec.platform _ _ _ H)).
Defined.

(** Every call ends in a state [steps] reaches, so both theorems apply to
    the result of [compressImage]. *)
Lemma compressImage_reachable (P : Platform) (f : File.t) (m : option Number) :
  steps P (executor f (or_default m)) (compressImage P f m).
Proof. apply run_steps. Qed.

Lemma compressImage_quiescent (P : Platform) (f : File.t) (m : option Number) :
  quiescent (compressImage P f m).
Proof.
  destruct (compressImage_cases P f m) as [Hr | [[Hr Hd] | [Hr [w [h Hd]]]]].
  - rewrite (compressImage_unreadable P f m Hr). reflexivity.
  - rewrite (compressImage_undecodable P f m Hr Hd). reflexivity.
  - rewrite (compressImage_decoded P f m w h Hr Hd). reflexivity.
Qed.

(** * The size of the surface *)

(** C2 as written fails: the sides are not rounded to nearest.  A 2000 by
    999 image at 512 gets a 512 by 255 surface, where rounding 255.744 would
    give 256. *)
Lemma surface_not_rounded :
  exists c,
    canvas (compressImage TestCodec.platform (TestCodec.picture "a.png" 2000 999)
              (Some (of_Z 512))) = Some c /\
    surface c = (512, 255) /\
    rounded_surface (of_Z 512) 2000 999 = (512, 256) /\
    surface c <> rounded_surface (of_Z 512) 2000 999.
Proof.
  eexists. split; [reflexivity|]. split; [reflexivity|].
  split; [reflexivity|]. vm_compute. discriminate.
Qed.

(** C2, amended: for a decodable w by h image and an integer maxDimension,
    both in range, compressImage gives its canvas the width floor(w*scale)
    and the height floor(h*scale), where scale = maxDimension / max(w, h) and
    quotient and products are double-precision: each product is cut down to
    its integer part, not rounded to nearest. *)
Theorem surface_is_floored (P : Platform) (f : File.t) (w h m : Z) :
  readable P f = true -> decode_image P (data_url f) = Some (w, h) ->
  0 <= w <= 4294967295 -> 0 <= h <= 4294967295 ->
  1 <= m <= 2147483647 ->
  exists c,
    canvas (compressImage P f (Some (of_Z m))) = Some c /\
    surface c = floored_surface (of_Z m) w h.
Proof.
  intros Hr Hd Hw Hh Hm.
  rewrite (compressImage_decoded P f (Some (of_Z m)) w h Hr Hd).
  cbn [canvas or_default]. eexists. split; [reflexivity|].
  destruct (Z.le_gt_cases 1 (Z.max w h)) as [Hmax|Hmax].
  - apply (render_sides {| src := data_url f; width := w; height := h |} m);
      assumption.
  - (* an image without pixels: the scale is infinite and both products NaN *)
    assert (w = 0) as -> by lia. assert (h = 0) as -> by lia.
    destruct (of_Z_normal m) as [mm [em [Em _]]];
      [split; [lia | change (2 ^ 53) with 9007199254740992; lia]|].
    unfold surface, floored_surface, render, scale_of.
    cbn [cwidth cheight drawImage set_width set_height width height].
    rewrite Em. reflexivity.
Qed.

Lemma surface_is_floored_witness :
  exists c,
    canvas (compressImage TestCodec.platform (TestCodec.picture "a.png" 2000 999)
              (Some (of_Z 512))) = Some c /\
    surface c = floored_surface (of_Z 512) 2000 999.
Proof.
  apply (surface_is_floored TestCodec.platform (TestCodec.picture "a.png" 2000 999)
           2000 999 512); try reflexivity; lia.
Defined.

(** C4 as written fails: a 2000 by 3 image at 512 satisfies max(w, h) >
    maxDimension and the call succeeds, but the height comes out as 0, toBlob
    yields null and the fulfilled file is the text null: it has no size. *)
Lemma thin_output_has_no_size :
  decode_image TestCodec.platform (data_url (TestCodec.picture "a.png" 2000 3))
    = Some (2000, 3) /\
  512 < Z.max 2000 3 /\
  (exists v,
     promise (compressImage TestCodec.platform (TestCodec.picture "a.png" 2000 3)
                (Some (of_Z 512))) = Fulfilled v /\
     File.content v = null_text) /\
  output_size TestCodec.platform
    (compressImage TestCodec.platform (TestCodec.picture "a.png" 2000 3)
       (Some (of_Z 512))) = None.
Proof.
  split; [reflexivity|]. split; [lia|].
  split; [eexists; split; reflexivity | reflexivity].
Qed.

(** C4, amended: for a decodable image whose larger side exceeds
    maxDimension, the larger side of the surface is maxDimension or one pixel
    less; when the surface has pixels and serialises, the output file is that
    serialisation, and a codec that reads back what it wrote decodes it with
    its larger side equal to maxDimension or one pixel less; when a side of
    the surface is 0 pixels or the serialisation fails, the output file is
    the text null. *)
Theorem larger_side_within_one_pixel (P : Platform) (f : File.t) (w h m : Z) :
  round_trip P ->
  readable P f = true -> decode_image P (data_url f) = Some (w, h) ->
  0 <= w <= 4294967295 -> 0 <= h <= 4294967295 ->
  1 <= m <= 2147483647 -> m < Z.max w h ->
  exists c,
    canvas (compressImage P f (Some (of_Z m))) = Some c /\
    m - 1 <= larger_side c <= m /\
    (forall b, cwidth c <> 0 -> cheight c <> 0 ->
       serialize_bitmap P c jpeg lit_0_7 = Some b ->
       promise (compressImage P f (Some (of_Z m)))
         = Fulfilled (File.make (File.name f) jpeg (date_now P) (blob_bytes b)) /\
       exists ow oh,
         output_size P (compressImage P f (Some (of_Z m))) = Some (ow, oh) /\
         m - 1 <= Z.max ow oh <= m) /\
    (cwidth c = 0 \/ cheight c = 0 \/ serialize_bitmap P c jpeg lit_0_7 = None ->
       promise (compressImage P f (Some (of_Z m)))
         = Fulfilled (File.make (File.name f) jpeg (date_now P) null_text)).
Proof.
  intros Hrt Hr Hd Hw Hh Hm Hlt.
  set (c := render (of_Z m) {| src := data_url f; width := w; height := h |}).
  assert (Hs : m - 1 <= larger_side c <= m).
  { apply (render_sides {| src := data_url f; width := w; height := h |} m);
      cbn [width height]; lia. }
  exists c. split.
  { rewrite (compressImage_decoded P f (Some (of_Z m)) w h Hr Hd). reflexivity. }
  split; [exact Hs|]. split.
  - intros b Hw0 Hh0 Hb.
    destruct (compressImage_serialized P f (Some (of_Z m)) w h b Hr Hd Hw0 Hh0 Hb)
      as [Hp Ho].
    split; [exact Hp|].
    exists (cwidth c), (cheight c). split; [exact (Ho Hrt) | exact Hs].
  - intro Hn. exact (compressImage_null P f (Some (of_Z m)) w h Hr Hd Hn).
Qed.

Lemma larger_side_within_one_pixel_witness :
  exists ow oh,
    output_size TestCodec.platform
      (compressImage TestCodec.platform (TestCodec.picture "a.png" 2000 1000)
         (Some (of_Z 512))) = Some (ow, oh) /\
    512 - 1 <= Z.max ow oh <= 512.
Proof.
  destruct (larger_side_within_one_pixel TestCodec.platform
              (TestCodec.picture "a.png" 2000 1000) 2000 1000 512
              TestCodec_round_trip eq_refl eq_refl) as [c [Hc [_ [H _]]]]; try lia.
  injection Hc as <-.
  refine (proj2 (H _ _ _ eq_refl)); vm_compute; discriminate.
Defined.

(** C6 as written fails: a 47 by 47 image at 48 is given a 47 by 47
    surface, so its larger side is not maxSize and is the original one. *)
Lemma upscale_misses_maxSize :
  exists c,
    canvas (compressImage TestCodec.platform (TestCodec.picture "a.png" 47 47)
              (Some (of_Z 48))) = Some c /\
    gt_one (scale_of (of_Z 48) 47 47) = true /\
    larger_side c = 47 /\
    larger_side c <> 48.
Proof.
  eexists. split; [reflexivity|]. split; [reflexivity|].
  split; [reflexivity|]. vm_compute. discriminate.
Qed.

(** C6, amended: for a decodable image with 0 < max(w, h) < maxSize the
    scale factor exceeds 1 and the larger side of the surface is maxSize or
    maxSize - 1, never below the original larger side; when the surface has
    pixels and serialises, the output file is that serialisation, and a codec
    that reads back what it wrote decodes it with that larger side (a 100 by
    100 input with maxSize 512 yields 512 by 512); when a side of the surface
    is 0 pixels, as for an image with a side of 0, or the serialisation
    fails, the output file is the text null. *)
Theorem smaller_image_is_enlarged (P : Platform) (f : File.t) (w h m : Z) :
  round_trip P ->
  readable P f = true -> decode_image P (data_url f) = Some (w, h) ->
  0 <= w -> 0 <= h -> 0 < Z.max w h -> Z.max w h < m -> m <= 2147483647 ->
  gt_one (scale_of (of_Z m) w h) = true /\
  exists c,
    canvas (compressImage P f (Some (of_Z m))) = Some c /\
    (larger_side c = m \/ larger_side c = m - 1) /\
    Z.max w h <= larger_side c /\
    (forall b, cwidth c <> 0 -> cheight c <> 0 ->
       serialize_bitmap P c jpeg lit_0_7 = Some b ->
       promise (compressImage P f (Some (of_Z m)))
         = Fulfilled (File.make (File.name f) jpeg (date_now P) (blob_bytes b)) /\
       exists ow oh,
         output_size P (compressImage P f (Some (of_Z m))) = Some (ow, oh) /\
         (Z.max ow oh = m \/ Z.max ow oh = m - 1) /\
         Z.max w h <= Z.max ow oh) /\
    (cwidth c = 0 \/ cheight c = 0 \/ serialize_bitmap P c jpeg lit_0_7 = None ->
       promise (compressImage P f (Some (of_Z m)))
         = Fulfilled (File.make (File.name f) jpeg (date_now P) null_text)).
Proof.
  intros Hrt Hr Hd Hw Hh Hmax Hlt Hm.
  split; [rewrite scale_of_max by lia; apply scale_gt_one; lia|].
  set (c := render (of_Z m) {| src := data_url f; width := w; height := h |}).
  assert (Hs : m - 1 <= larger_side c <= m).
  { apply (render_sides {| src := data_url f; width := w; height := h |} m);
      cbn [width height]; lia. }
  exists c. split.
  { rewrite (compressImage_decoded P f (Some (of_Z m)) w h Hr Hd). reflexivity. }
  split; [lia|]. split; [lia|]. split.
  - intros b Hw0 Hh0 Hb.
    destruct (compressImage_serialized P f (Some (of_Z m)) w h b Hr Hd Hw0 Hh0 Hb)
      as [Hp Ho].
    split; [exact Hp|].
    exists (cwidth c), (cheight c). split; [exact (Ho Hrt)|].
    unfold larger_side in Hs. lia.
  - intro Hn. exact (compressImage_null P f (Some (of_Z m)) w h Hr Hd Hn).
Qed.

Lemma smaller_image_is_enlarged_witness :
  output_size TestCodec.platform
    (compressImage TestCodec.platform (TestCodec.picture "a.png" 100 100)
       (Some (of_Z 512))) = Some (512, 512) /\
  exists ow oh,
    output_size TestCodec.platform
      (compressImage TestCodec.platform (TestCodec.picture "a.png" 100 100)
         (Some (of_Z 512))) = Some (ow, oh) /\
    (Z.max ow oh = 512 \/ Z.max ow oh = 512 - 1).
Proof.
  split; [reflexivity|].
  destruct (smaller_image_is_enlarged TestCodec.platform
              (TestCodec.picture "a.png" 100 100) 100 100 512
              TestCodec_round_trip eq_refl eq_refl) as [_ [c [Hc [_ [_ [H _]]]]]]; try lia.
  injection Hc as <-.
  destruct (H _ ltac:(vm_compute; discriminate) ltac:(vm_compute; discriminate) eq_refl)
    as [_ [ow [oh [Ho [Hs _]]]]].
  exists ow, oh. split; assumption.
Defined.

(** * Further properties of the scaling *)

(** Two roundings: a scaled side is within a factor [(1 +- 2^-53)^2] of the
    exact product [x * m / w]. *)
Lemma scaled_side_err (m w x : Z) :
  1 <= m < 2 ^ 53 -> 1 <= w < 2 ^ 53 -> 1 <= x < 2 ^ 53 ->
  let p := mul (of_Z x) (div (of_Z m) (of_Z w)) in
  let E := (IZR x * IZR m / IZR w)%R in
  normal p /\
  (E * (1 - pow2 (-53)) * (1 - pow2 (-53)) <= to_R p
   <= E * (1 + pow2 (-53)) * (1 + pow2 (-53)))%R.
Proof.
  intros Hm Hw Hx p E.
  destruct (scale_R m w Hm Hw) as [Hns [Hes Hs]].
  destruct (side_R x _ Hx Hns Hes) as [Hnp Hp].
  fold p in Hnp, Hp. split; [exact Hnp|].
  set (s := to_R (div (of_Z m) (of_Z w))) in *.
  pose proof pow2_m53 as Hu. pose proof (pow2_pos (-53)) as Hu0.
  set (u := pow2 (-53)) in *.
  assert (Hmr : (1 <= IZR m)%R) by (apply IZR_le; lia).
  assert (Hwr : (1 <= IZR w)%R) by (apply IZR_le; lia).
  assert (Hxr : (1 <= IZR x)%R) by (apply IZR_le; lia).
  set (r := (IZR m / IZR w)%R) in *.
  assert (Hr0 : (0 < r)%R) by (unfold r; apply Rdiv_lt_0_compat; lra).
  assert (HE : E = (IZR x * r)%R) by (unfold E, r; field; lra).
  rewrite HE.
  apply Rabs_bounds in Hs. apply Rabs_bounds in Hp.
  assert (Hu1 : (u < 1)%R) by lra.
  assert (Hs1 : (r * (1 - u) <= s <= r * (1 + u))%R) by (split; nra).
  assert (Hs0 : (0 < s)%R) by (apply to_R_pos; exact Hns).
  assert (Hxs : (IZR x * (r * (1 - u)) <= IZR x * s <= IZR x * (r * (1 + u)))%R)
    by (split; apply Rmult_le_compat_l; lra).
  assert (Hp1 : (IZR x * s * (1 - u) <= to_R p <= IZR x * s * (1 + u))%R)
    by (split; nra).
  split.
  - apply Rle_trans with (IZR x * s * (1 - u))%R; [|lra].
    apply Rmult_le_compat_r; [lra|]. lra.
  - apply Rle_trans with (IZR x * s * (1 + u))%R; [lra|].
    apply Rmult_le_compat_r; [lra|]. lra.
Qed.

(** A scaled side, in pixels, is the exact integer quotient or one less. *)
Lemma scaled_side_quotient (m w x : Z) :
  1 <= m -> 1 <= w -> 1 <= x <= w -> m * w <= 2 ^ 51 ->
  let p := mul (of_Z x) (div (of_Z m) (of_Z w)) in
  normal p /\ x * m / w - 1 <= truncate p <= x * m / w.
Proof.
  intros Hm Hw Hx Hmw p.
  change (2 ^ 51) with 2251799813685248 in Hmw.
  assert (H53 : forall z, 1 <= z <= 2251799813685248 -> 1 <= z < 2 ^ 53)
    by (intros z Hz; split; [lia | change (2 ^ 53) with 9007199254740992; lia]).
  destruct (scaled_side_err m w x (H53 m ltac:(nia)) (H53 w ltac:(nia))
              (H53 x ltac:(nia))) as [Hn [Hlo Hhi]].
  fold p in Hn, Hlo, Hhi. split; [exact Hn|].
  pose proof (Z.div_mod (x * m) w ltac:(lia)) as Hdm.
  pose proof (Z.mod_pos_bound (x * m) w ltac:(lia)) as Hmod.
  set (Q := x * m / w) in *. set (rem := (x * m) mod w) in *.
  assert (HK : x * m <= 2251799813685248) by nia.
  assert (HQ0 : 0 <= Q) by (apply Z.div_pos; nia).
  pose proof pow2_m53 as Hu. pose proof (pow2_pos (-53)) as Hu0.
  set (u := pow2 (-53)) in *.
  set (K := (IZR x * IZR m)%R) in *.
  assert (HKr : (1 <= K <= 2251799813685248)%R).
  { unfold K. rewrite <- mult_IZR. split; apply IZR_le; nia. }
  assert (Hwr : (1 <= IZR w)%R) by (apply IZR_le; lia).
  assert (Hrem : (0 <= IZR rem /\ IZR rem + 1 <= IZR w)%R).
  { split; [apply IZR_le; lia|]. rewrite <- plus_IZR. apply IZR_le. lia. }
  assert (HKQ : (K = IZR w * IZR Q + IZR rem)%R).
  { unfold K. rewrite <- !mult_IZR, <- plus_IZR. f_equal. exact Hdm. }
  assert (HQr : (0 <= IZR Q)%R) by (apply IZR_le; exact HQ0).
  set (E := (K / IZR w)%R) in *.
  assert (HE : (E * IZR w = K)%R) by (unfold E; field; lra).
  assert (HE0 : (0 < E)%R) by (unfold E; apply Rdiv_lt_0_compat; lra).
  assert (HEK : (E <= K)%R) by nra.
  assert (HKu : (K * u <= / 4)%R).
  { assert (K * u * 9007199254740992 <= 2251799813685248)%R
      by (rewrite Rmult_assoc, Hu; lra).
    lra. }
  assert (Hu4 : (u <= / 4)%R) by nra.
  apply truncate_bounds; [exact Hn | | ].
  - (* [Q - 1 <= p] *)
    rewrite minus_IZR.
    assert (HEQ : (IZR Q <= E)%R) by nra.
    assert (HEu : (E * u <= / 4)%R) by nra.
    nra.
  - (* [p < Q + 1] *)
    rewrite plus_IZR.
    assert (H1 : (E * (1 + u) * (1 + u) * IZR w = K + 2 * (K * u) + (K * u) * u)%R).
    { replace (E * (1 + u) * (1 + u) * IZR w)%R
        with ((E * IZR w) * (1 + u) * (1 + u))%R by ring.
      rewrite HE. ring. }
    assert (H2 : (E * (1 + u) * (1 + u) * IZR w < (IZR Q + 1) * IZR w)%R) by nra.
    assert (H3 : (E * (1 + u) * (1 + u) < IZR Q + 1)%R).
    { apply (Rmult_lt_reg_r (IZR w)); [lra | exact H2]. }
    lra.
Qed.

(** Shrinking never enlarges a side, enlarging never shrinks one. *)
Lemma scaled_side_direction (m w x : Z) :
  1 <= m <= 4294967296 -> 1 <= w <= 4294967296 -> 1 <= x <= w ->
  let p := mul (of_Z x) (div (of_Z m) (of_Z w)) in
  (m <= w -> truncate p <= x) /\ (w < m -> x <= truncate p).
Proof.
  intros Hm Hw Hx p.
  assert (H53 : forall z, 1 <= z <= 4294967296 -> 1 <= z < 2 ^ 53)
    by (intros z Hz; split; [lia | change (2 ^ 53) with 9007199254740992; lia]).
  destruct (scaled_side_err m w x (H53 m Hm) (H53 w Hw) (H53 x ltac:(lia)))
    as [Hn [Hlo Hhi]].
  fold p in Hn, Hlo, Hhi.
  pose proof (to_R_pos p Hn) as Hpos.
  pose proof pow2_m53 as Hu. pose proof (pow2_pos (-53)) as Hu0.
  set (u := pow2 (-53)) in *.
  assert (Hmr : (1 <= IZR m <= 4294967296)%R) by (split; apply IZR_le; lia).
  assert (Hwr : (1 <= IZR w <= 4294967296)%R) by (split; apply IZR_le; lia).
  assert (Hxr : (1 <= IZR x <= IZR w)%R) by (split; apply IZR_le; lia).
  set (E := (IZR x * IZR m / IZR w)%R) in *.
  assert (HE : (E * IZR w = IZR x * IZR m)%R) by (unfold E; field; lra).
  assert (HE0 : (0 < E)%R).
  { unfold E. apply Rdiv_lt_0_compat; [|lra]. apply Rmult_lt_0_compat; lra. }
  assert (Hu32 : (u * 4294967296 <= / 2097152)%R) by lra.
  split.
  - intro Hle.
    assert (Hmw : (IZR m <= IZR w)%R) by (apply IZR_le; exact Hle).
    assert (HEx : (E <= IZR x)%R) by nra.
    assert (Hxu : (IZR x * u <= / 2097152)%R) by nra.
    assert (Hu1 : (u <= / 2097152)%R) by nra.
    assert (Hp : (to_R p < IZR x + 1)%R) by nra.
    apply (truncate_bounds p 0 x Hn); [lra | rewrite plus_IZR; exact Hp].
  - intro Hlt.
    assert (Hmw : (IZR w + 1 <= IZR m)%R) by (rewrite <- plus_IZR; apply IZR_le; lia).
    (* [E >= x + x / w], and the two roundings take less than [x / w] away *)
    assert (HEx : (IZR x * (IZR w + 1) <= E * IZR w)%R) by nra.
    assert (H1 : (IZR x * IZR w <= E * (1 - u) * (1 - u) * IZR w)%R).
    { replace (E * (1 - u) * (1 - u) * IZR w)%R
        with (E * IZR w * ((1 - u) * (1 - u)))%R by ring.
      assert (Hf : (1 - 2 * u <= (1 - u) * (1 - u))%R) by nra.
      assert (Hwu : (IZR w * u <= / 2097152)%R) by nra.
      assert (Hu1 : (u <= / 2097152)%R) by nra.
      assert (H2 : (IZR x * IZR w <= IZR x * (IZR w + 1) * (1 - 2 * u))%R) by nra.
      assert (H3 : (IZR x * (IZR w + 1) * (1 - 2 * u) <= E * IZR w * (1 - 2 * u))%R)
        by (apply Rmult_le_compat_r; lra).
      assert (H4 : (E * IZR w * (1 - 2 * u) <= E * IZR w * ((1 - u) * (1 - u)))%R)
        by (apply Rmult_le_compat_l; nra).
      lra. }
    assert (H5 : (IZR x <= E * (1 - u) * (1 - u))%R).
    { apply (Rmult_le_reg_r (IZR w)); [lra | exact H1]. }
    assert (Hp : (IZR x <= to_R p)%R) by lra.
    destruct (truncate_spec p Hn) as [_ Hsp].
    assert (Hlt' : (IZR x < IZR (truncate p + 1))%R) by lra.
    apply lt_IZR in Hlt'. lia.
Qed.

(** A Number divided by itself is one, and times one is itself. *)
Lemma div_self (x : Number) :
  normal x -> div x x = S754_finite false 4503599627370496 (-52).
Proof.
  intro Hx. destruct (normal_inv x Hx) as [mx [ex [-> [Hmx [Hex Hdx]]]]].
  unfold div. cbn [SFdiv xorb].
  rewrite (SFdiv_core_normal mx mx ex ex Hdx Hdx) by lia.
  rewrite (Z.mul_comm (Zpos mx)), Z.div_mul, Z.mod_mul by lia.
  replace (ex - ex - 53) with (-53) by lia.
  assert (Hl : new_location (Zpos mx) 0 = loc_Exact)
    by (unfold new_location; destruct (Z.even (Zpos mx)); reflexivity).
  rewrite Hl. reflexivity.
Qed.

Lemma mul_one (x : Number) :
  normal x -> expo x <= 970 ->
  mul x (S754_finite false 4503599627370496 (-52)) = x.
Proof.
  intros Hx He. destruct (normal_inv x Hx) as [mx [ex [-> [Hmx [Hex Hdx]]]]].
  cbn [expo] in He. unfold mul. cbn [SFmul xorb].
  change (2 ^ 52) with 4503599627370496 in *.
  change (2 ^ 53) with 9007199254740992 in *.
  assert (Hd : Zpos (digits2_pos (mx * 4503599627370496)) = 105).
  { apply digits2_unique. rewrite Pos2Z.inj_mul.
    change (2 ^ (105 - 1)) with (4503599627370496 * 4503599627370496).
    change (2 ^ 105) with (9007199254740992 * 4503599627370496). lia. }
  pose proof (binary_round_aux_normal (mx * 4503599627370496) (ex + -52) loc_Exact
                (Zpos (mx * 4503599627370496)) 1 ltac:(lia)
                (located_exact (Zpos (mx * 4503599627370496)) ltac:(lia))) as H.
  cbv zeta in H. rewrite Hd in H.
  specialize (H ltac:(lia) ltac:(lia) ltac:(lia)).
  destruct H as [mr [er [Ey [Hmr [Her Herr]]]]].
  rewrite Ey. rewrite Pos2Z.inj_mul in Herr.
  change (2 ^ (105 - 53)) with 4503599627370496 in Herr.
  change (2 ^ 52) with 4503599627370496 in *.
  change (2 ^ 53) with 9007199254740992 in *.
  destruct Her as [E|E]; subst er.
  - replace (ex + -52 + (105 - 53) - (ex + -52)) with 52 in Herr by lia.
    change (2 ^ 52) with 4503599627370496 in Herr.
    assert (mr = mx) by lia. subst mr. f_equal. lia.
  - exfalso.
    replace (ex + -52 + (105 - 53) + 1 - (ex + -52)) with 53 in Herr by lia.
    change (2 ^ 53) with 9007199254740992 in Herr. lia.
Qed.

Lemma truncate_of_Z (n : Z) : 0 <= n < 2 ^ 53 -> truncate (of_Z n) = n.
Proof.
  intro Hn. destruct (Z.eq_dec n 0) as [->|Hn0]; [reflexivity|].
  destruct (of_Z_R n ltac:(lia)) as [Hnn [_ Hv]].
  assert (n <= truncate (of_Z n) <= n); [|lia].
  apply truncate_bounds; [exact Hnn | rewrite Hv; lra | rewrite Hv, plus_IZR; lra].
Qed.

(** The sign of a rounded value is the sign it was given. *)
Lemma binary_round_aux_opp (m e : Z) (l : location) :
  binary_round_aux prec emax true m e l
  = SFopp (binary_round_aux prec emax false m e l).
Proof.
  unfold binary_round_aux.
  destruct (shr_fexp prec emax m e l) as [mrs1 e1].
  destruct (shr_fexp prec emax _ e1 loc_Exact) as [mrs2 e2].
  destruct (shr_m mrs2); [reflexivity | | reflexivity].
  destruct (e2 <=? emax - prec); reflexivity.
Qed.

Lemma of_Z_opp (n : Z) : of_Z (- n) = (if n =? 0 then of_Z 0 else SFopp (of_Z n)).
Proof.
  destruct n as [|p|p]; [reflexivity | |].
  - cbn [Z.opp Z.eqb]. unfold of_Z, binary_normalize, binary_round.
    destruct (shl_align p 0 _) as [mz ez]. apply binary_round_aux_opp.
  - cbn [Z.opp Z.eqb]. unfold of_Z, binary_normalize, binary_round.
    destruct (shl_align p 0 _) as [mz ez]. rewrite binary_round_aux_opp.
    destruct (binary_round_aux prec emax false (Zpos mz) ez loc_Exact) as [[|]|[|]| |[|] ? ?];
      reflexivity.
Qed.

Lemma div_opp_l (x y : Number) :
  normal x -> normal y -> div (SFopp x) y = SFopp (div x y).
Proof.
  intros Hx Hy.
  destruct (normal_inv x Hx) as [mx [ex [-> _]]].
  destruct (normal_inv y Hy) as [my [ey [-> _]]].
  unfold div. cbn [SFopp SFdiv xorb negb].
  destruct (SFdiv_core_binary prec emax (Zpos mx) ex (Zpos my) ey) as [[mz ez] lz].
  apply binary_round_aux_opp.
Qed.

Lemma mul_opp_r (x y : Number) :
  normal x -> normal y -> mul x (SFopp y) = SFopp (mul x y).
Proof.
  intros Hx Hy.
  destruct (normal_inv x Hx) as [mx [ex [-> _]]].
  destruct (normal_inv y Hy) as [my [ey [-> _]]].
  unfold mul. cbn [SFopp SFmul xorb negb].
  apply binary_round_aux_opp.
Qed.

Lemma truncate_opp (x : Number) : truncate (SFopp x) = - truncate x.
Proof.
  destruct x as [s|s| |[|] m e]; cbn [SFopp truncate negb]; try reflexivity.
  symmetry. apply Z.opp_involutive.
Qed.

(** ** More about the size of the surface *)

Lemma truncate_nonneg (p : Number) : normal p -> 0 <= truncate p.
Proof.
  intro Hn. destruct (truncate_spec p Hn) as [_ H].
  pose proof (to_R_pos p Hn) as Hpos.
  assert (H0 : (IZR 0 < IZR (truncate p + 1))%R) by lra.
  apply lt_IZR in H0. lia.
Qed.

Lemma mul_zero_l (s : Number) : normal s -> mul (of_Z 0) s = S754_zero false.
Proof. intro Hs. destruct (normal_inv s Hs) as [m [e [-> _]]]. reflexivity. Qed.

Lemma render_no_pixels (u : DataURL) (m : Z) :
  1 <= m < 2 ^ 53 ->
  surface (render (of_Z m) {| src := u; width := 0; height := 0 |}) = (0, 0).
Proof.
  intro Hm. destruct (of_Z_normal m Hm) as [mm [em [Em _]]].
  unfold surface, render, scale_of.
  cbn [cwidth cheight drawImage set_width set_height width height].
  rewrite Em. reflexivity.
Qed.

Lemma scale_of_max53 (M : Number) (w h : Z) :
  0 <= w < 2 ^ 53 -> 0 <= h < 2 ^ 53 ->
  scale_of M w h = div M (of_Z (Z.max w h)).
Proof. intros Hw Hh. unfold scale_of. now rewrite Math_max_of_Z. Qed.

Lemma surface_render (M : Number) (i : Img) :
  surface (render M i)
  = (reflect_unsigned_long 300 (mul (of_Z (width i)) (scale_of M (width i) (height i))),
     reflect_unsigned_long 150 (mul (of_Z (height i)) (scale_of M (width i) (height i)))).
Proof. reflexivity. Qed.

Lemma reflect_nonneg (d : Z) (x : Number) : 0 <= d -> 0 <= reflect_unsigned_long d x.
Proof.
  intro Hd. unfold reflect_unsigned_long, to_unsigned_long.
  pose proof (Z.mod_pos_bound (truncate x) (2 ^ 32) ltac:(reflexivity)) as H.
  destruct (_ <=? _); lia.
Qed.

(** One side against the exact quotient. *)
Lemma side_px_quotient (d m w x : Z) :
  1 <= m <= 2147483647 -> 1 <= w -> 0 <= x <= w -> m * w <= 2 ^ 51 ->
  x * m / w - 1 <= reflect_unsigned_long d (mul (of_Z x) (div (of_Z m) (of_Z w)))
  <= x * m / w.
Proof.
  intros Hm Hw Hx Hmw.
  assert (Hmw' : m * w <= 2251799813685248) by exact Hmw.
  assert (H53 : forall z, 1 <= z <= 2251799813685248 -> 1 <= z < 2 ^ 53)
    by (intros z Hz; split; [lia | change (2 ^ 53) with 9007199254740992; lia]).
  destruct (Z.eq_dec x 0) as [->|Hx0].
  - rewrite mul_zero_l by (apply scale_R; apply H53; nia).
    rewrite Z.mul_0_l, Z.div_0_l by lia. cbn. lia.
  - destruct (scaled_side_quotient m w x ltac:(lia) Hw ltac:(lia) Hmw) as [Hn Hq].
    cbv zeta in Hn, Hq.
    pose proof (truncate_nonneg _ Hn) as H0.
    assert (Hle : x * m / w <= m).
    { apply Z.div_le_upper_bound; [lia | nia]. }
    rewrite reflect_in_range by lia. exact Hq.
Qed.

(** One side against the original one. *)
Lemma side_px_direction (d m w x : Z) :
  1 <= m <= 2147483647 -> 1 <= w <= 4294967295 -> 0 <= x <= w ->
  let px := reflect_unsigned_long d (mul (of_Z x) (div (of_Z m) (of_Z w))) in
  (m <= w -> px <= x) /\ (w <= m -> x <= px).
Proof.
  intros Hm Hw Hx px.
  assert (H53 : forall z, 1 <= z <= 4294967296 -> 1 <= z < 2 ^ 53)
    by (intros z Hz; split; [lia | change (2 ^ 53) with 9007199254740992; lia]).
  destruct (Z.eq_dec x 0) as [->|Hx0].
  - unfold px. rewrite mul_zero_l by (apply scale_R; apply H53; lia).
    cbn. split; intro; lia.
  - destruct (scaled_side_px d m w x Hm Hw Hx) as [Er [Hb _]].
    destruct (scaled_side_R m w x ltac:(lia) ltac:(lia) ltac:(lia)) as [Hn _].
    cbv zeta in Er, Hb, Hn. rewrite (floor_truncate _ Hn) in Er, Hb.
    unfold px. rewrite Er.
    destruct (scaled_side_direction m w x ltac:(lia) ltac:(lia) ltac:(lia)) as [Hd Hu].
    cbv zeta in Hd, Hu.
    split; [exact Hd|]. intro Hle.
    destruct (Z.eq_dec w m) as [->|Hne]; [|apply Hu; lia].
    destruct (of_Z_R m (H53 m ltac:(lia))) as [Hnm _].
    destruct (of_Z_R x (H53 x ltac:(lia))) as [Hnx [Hex _]].
    rewrite (div_self _ Hnm), (mul_one _ Hnx) by lia.
    rewrite truncate_of_Z by (split; [lia | change (2 ^ 53) with 9007199254740992; lia]).
    lia.
Qed.

(** One side for a negative maximum size. *)
Lemma side_px_negative (d m w x : Z) :
  1 <= m <= 2147483647 -> 1 <= w <= 4294967295 -> 0 <= x <= w ->
  reflect_unsigned_long d (mul (of_Z x) (div (of_Z (- m)) (of_Z w)))
  = if reflect_unsigned_long d (mul (of_Z x) (div (of_Z m) (of_Z w))) =? 0
    then 0 else d.
Proof.
  intros Hm Hw Hx.
  assert (H53 : forall z, 1 <= z <= 4294967296 -> 1 <= z < 2 ^ 53)
    by (intros z Hz; split; [lia | change (2 ^ 53) with 9007199254740992; lia]).
  destruct (of_Z_R m (H53 m ltac:(lia))) as [Hnm _].
  destruct (of_Z_R w (H53 w ltac:(lia))) as [Hnw _].
  destruct (scale_R m w (H53 m ltac:(lia)) (H53 w ltac:(lia))) as [Hns _].
  rewrite of_Z_opp.
  destruct (Z.eqb_spec m 0) as [?|_]; [lia|].
  rewrite (div_opp_l _ _ Hnm Hnw).
  destruct (Z.eq_dec x 0) as [->|Hx0].
  - destruct (normal_inv _ Hns) as [ms [es [-> _]]]. reflexivity.
  - destruct (of_Z_R x (H53 x ltac:(lia))) as [Hnx _].
    rewrite (mul_opp_r _ _ Hnx Hns).
    destruct (scaled_side_px d m w x Hm Hw Hx) as [Er [Hb _]].
    destruct (scaled_side_R m w x ltac:(lia) ltac:(lia) ltac:(lia)) as [Hn _].
    cbv zeta in Er, Hb, Hn. rewrite (floor_truncate _ Hn) in Er, Hb.
    rewrite Er.
    set (p := mul (of_Z x) (div (of_Z m) (of_Z w))) in *.
    unfold reflect_unsigned_long, to_unsigned_long. rewrite truncate_opp.
    change (2 ^ 32) with 4294967296.
    destruct (Z.eqb_spec (truncate p) 0) as [E0|E0].
    + rewrite E0. reflexivity.
    + replace (- truncate p) with (4294967296 - truncate p + (-1) * 4294967296) by lia.
      rewrite Z.mod_add by lia. rewrite Z.mod_small by lia.
      destruct (Z.leb_spec (4294967296 - truncate p) 2147483647); [lia | reflexivity].
Qed.

(** A maximum size that is infinite or not a number. *)
Lemma div_inf_or_nan (m z : Number) : inf_or_nan m -> inf_or_nan (div m z).
Proof. destruct m, z; simpl; intro H; try exact I; contradiction. Qed.

Lemma mul_inf_or_nan (x s : Number) : inf_or_nan s -> inf_or_nan (mul x s).
Proof. destruct x, s; simpl; intro H; try exact I; contradiction. Qed.

Lemma reflect_inf_or_nan (d : Z) (x : Number) :
  inf_or_nan x -> reflect_unsigned_long d x = 0.
Proof. destruct x; simpl; intro H; try contradiction; reflexivity. Qed.

Lemma render_nonfinite (M : Number) (i : Img) :
  inf_or_nan M -> surface (render M i) = (0, 0).
Proof.
  intro HM. rewrite surface_render. unfold scale_of.
  rewrite !reflect_inf_or_nan; [reflexivity | |];
    apply mul_inf_or_nan, div_inf_or_nan, HM.
Qed.

(** X1: for a decodable image and a positive integer maxSize, both in
    range, neither side of the canvas exceeds maxSize, whether the image is
    shrunk or enlarged. *)
Theorem surface_fits_maxSize (P : Platform) (f : File.t) (w h m : Z) :
  readable P f = true -> decode_image P (data_url f) = Some (w, h) ->
  0 <= w <= 4294967295 -> 0 <= h <= 4294967295 -> 1 <= m <= 2147483647 ->
  exists c,
    canvas (compressImage P f (Some (of_Z m))) = Some c /\
    0 <= cwidth c <= m /\ 0 <= cheight c <= m.
Proof.
  intros Hr Hd Hw Hh Hm.
  rewrite (compressImage_decoded P f (Some (of_Z m)) w h Hr Hd).
  cbn [canvas or_default]. eexists. split; [reflexivity|].
  destruct (Z.le_gt_cases 1 (Z.max w h)) as [Hmax|Hmax].
  - destruct (render_sides {| src := data_url f; width := w; height := h |} m)
      as [_ [Hcw [Hch _]]]; cbn [width height]; try assumption.
    split; assumption.
  - assert (w = 0) as -> by lia. assert (h = 0) as -> by lia.
    pose proof (render_no_pixels (data_url f) m
                  ltac:(split; [lia | change (2 ^ 53) with 9007199254740992; lia])) as E.
    unfold surface in E. apply pair_equal_spec in E. destruct E as [-> ->]. lia.
Qed.

Lemma surface_fits_maxSize_witness :
  exists c,
    canvas (compressImage TestCodec.platform (TestCodec.picture "a.png" 100 60)
              (Some (of_Z 512))) = Some c /\
    0 <= cwidth c <= 512 /\ 0 <= cheight c <= 512.
Proof.
  apply (surface_fits_maxSize TestCodec.platform (TestCodec.picture "a.png" 100 60)
           100 60 512); try reflexivity; lia.
Defined.

(** X2: for a decodable image with a larger side of at least 1 and an
    integer maxSize from 1 to 2^31 - 1 with maxSize * max(w, h) at most
    2^51, each side of the canvas is the exact integer quotient
    side * maxSize / max(w, h), or one pixel less. *)
Theorem sides_are_exact_quotients (P : Platform) (f : File.t) (w h m : Z) :
  readable P f = true -> decode_image P (data_url f) = Some (w, h) ->
  0 <= w -> 0 <= h -> 1 <= Z.max w h ->
  1 <= m <= 2147483647 -> m * Z.max w h <= 2 ^ 51 ->
  exists c,
    canvas (compressImage P f (Some (of_Z m))) = Some c /\
    w * m / Z.max w h - 1 <= cwidth c <= w * m / Z.max w h /\
    h * m / Z.max w h - 1 <= cheight c <= h * m / Z.max w h.
Proof.
  intros Hr Hd Hw Hh Hmax Hm Hmw.
  rewrite (compressImage_decoded P f (Some (of_Z m)) w h Hr Hd).
  cbn [canvas or_default]. eexists. split; [reflexivity|].
  pose proof (surface_render (of_Z m) {| src := data_url f; width := w; height := h |}) as E.
  cbn [width height] in E. unfold surface in E.
  apply pair_equal_spec in E. destruct E as [-> ->].
  assert (Hb : Z.max w h < 2 ^ 53).
  { change (2 ^ 51) with 2251799813685248 in Hmw.
    change (2 ^ 53) with 9007199254740992. nia. }
  rewrite scale_of_max53 by lia.
  split; apply side_px_quotient; lia.
Qed.

Lemma sides_are_exact_quotients_witness :
  exists c,
    canvas (compressImage TestCodec.platform (TestCodec.picture "a.png" 2000 999)
              (Some (of_Z 512))) = Some c /\
    2000 * 512 / Z.max 2000 999 - 1 <= cwidth c <= 2000 * 512 / Z.max 2000 999 /\
    999 * 512 / Z.max 2000 999 - 1 <= cheight c <= 999 * 512 / Z.max 2000 999.
Proof.
  apply (sides_are_exact_quotients TestCodec.platform
           (TestCodec.picture "a.png" 2000 999) 2000 999 512);
    try reflexivity; lia.
Defined.

(** X3: for a positive integer maxSize of at most 2^31 - 1 with
    maxSize * max(w, h) at most 2^51, a side of the image that, times
    maxSize, is below the larger side gets 0 pixels on the canvas; toBlob
    then yields null and the promise is fulfilled with the file holding the
    text null instead of an image. *)
Theorem thin_image_yields_null_file (P : Platform) (f : File.t) (w h m : Z) :
  readable P f = true -> decode_image P (data_url f) = Some (w, h) ->
  0 <= w -> 0 <= h ->
  1 <= m <= 2147483647 -> m * Z.max w h <= 2 ^ 51 ->
  w * m < Z.max w h \/ h * m < Z.max w h ->
  (exists c,
     canvas (compressImage P f (Some (of_Z m))) = Some c /\
     (w * m < Z.max w h -> cwidth c = 0) /\
     (h * m < Z.max w h -> cheight c = 0)) /\
  promise (compressImage P f (Some (of_Z m)))
  = Fulfilled (File.make (File.name f) jpeg (date_now P) null_text).
Proof.
  intros Hr Hd Hw Hh Hm Hmw Hthin.
  assert (Hmax : 1 <= Z.max w h) by lia.
  rewrite (compressImage_decoded P f (Some (of_Z m)) w h Hr Hd).
  cbn [promise canvas or_default].
  set (c := render (of_Z m) {| src := data_url f; width := w; height := h |}).
  assert (Hside : (w * m < Z.max w h -> cwidth c = 0) /\
                  (h * m < Z.max w h -> cheight c = 0)).
  { pose proof (surface_render (of_Z m) {| src := data_url f; width := w; height := h |}) as E.
    cbn [width height] in E. unfold surface in E. fold c in E.
    apply pair_equal_spec in E. destruct E as [Ew Eh]. rewrite Ew, Eh.
    assert (Hb : Z.max w h < 2 ^ 53).
    { change (2 ^ 51) with 2251799813685248 in Hmw.
      change (2 ^ 53) with 9007199254740992. nia. }
    rewrite scale_of_max53 by lia.
    pose proof (side_px_quotient 300 m (Z.max w h) w ltac:(lia) ltac:(lia) ltac:(lia) Hmw) as Hqw.
    pose proof (side_px_quotient 150 m (Z.max w h) h ltac:(lia) ltac:(lia) ltac:(lia) Hmw) as Hqh.
    pose proof (reflect_nonneg 300 (mul (of_Z w) (div (of_Z m) (of_Z (Z.max w h))))
                  ltac:(lia)) as Hw0.
    pose proof (reflect_nonneg 150 (mul (of_Z h) (div (of_Z m) (of_Z (Z.max w h))))
                  ltac:(lia)) as Hh0.
    split; intro Ht.
    - rewrite (Z.div_small (w * m)) in Hqw by nia. lia.
    - rewrite (Z.div_small (h * m)) in Hqh by nia. lia. }
  split; [exists c; split; [reflexivity | exact Hside]|].
  rewrite toBlob_empty; [reflexivity|].
  destruct Hside as [Hsw Hsh]. destruct Hthin as [Ht|Ht]; [left; auto | right; auto].
Qed.

Lemma thin_image_yields_null_file_witness :
  (exists c,
     canvas (compressImage TestCodec.platform (TestCodec.picture "a.png" 2000 3)
               (Some (of_Z 512))) = Some c /\ cheight c = 0) /\
  promise (compressImage TestCodec.platform (TestCodec.picture "a.png" 2000 3)
             (Some (of_Z 512)))
  = Fulfilled (File.make "a.png" jpeg 1700000000000 null_text).
Proof.
  destruct (thin_image_yields_null_file TestCodec.platform
              (TestCodec.picture "a.png" 2000 3) 2000 3 512)
    as [[c [Hc [_ Hh]]] Hp]; try reflexivity; try lia.
  split; [|exact Hp]. exists c. split; [exact Hc|]. apply Hh. lia.
Defined.

(** X4: for a decodable image with sides within unsigned long, a larger
    side of at least 1 and an integer maxSize from 1 to 2^31 - 1: when
    maxSize is at most the larger side no side of the canvas exceeds the
    original one, and when it is at least the larger side no side falls
    below the original one; so an image whose larger side equals maxSize
    keeps its size exactly. *)
Theorem scaling_direction (P : Platform) (f : File.t) (w h m : Z) :
  readable P f = true -> decode_image P (data_url f) = Some (w, h) ->
  0 <= w <= 4294967295 -> 0 <= h <= 4294967295 -> 1 <= Z.max w h ->
  1 <= m <= 2147483647 ->
  exists c,
    canvas (compressImage P f (Some (of_Z m))) = Some c /\
    (m <= Z.max w h -> cwidth c <= w /\ cheight c <= h) /\
    (Z.max w h <= m -> w <= cwidth c /\ h <= cheight c) /\
    (Z.max w h = m -> surface c = (w, h)).
Proof.
  intros Hr Hd Hw Hh Hmax Hm.
  rewrite (compressImage_decoded P f (Some (of_Z m)) w h Hr Hd).
  cbn [canvas or_default]. eexists. split; [reflexivity|].
  pose proof (surface_render (of_Z m) {| src := data_url f; width := w; height := h |}) as E.
  cbn [width height] in E. unfold surface in E |- *.
  apply pair_equal_spec in E. destruct E as [-> ->].
  rewrite scale_of_max53
    by (split; [lia | change (2 ^ 53) with 9007199254740992; lia]).
  destruct (side_px_direction 300 m (Z.max w h) w Hm ltac:(lia) ltac:(lia)) as [Hdw Huw].
  destruct (side_px_direction 150 m (Z.max w h) h Hm ltac:(lia) ltac:(lia)) as [Hdh Huh].
  cbv zeta in Hdw, Huw, Hdh, Huh.
  split; [intro; split; auto|]. split; [intro; split; auto|].
  intro E. f_equal.
  - specialize (Hdw ltac:(lia)). specialize (Huw ltac:(lia)). lia.
  - specialize (Hdh ltac:(lia)). specialize (Huh ltac:(lia)). lia.
Qed.

Lemma scaling_direction_witness :
  exists c,
    canvas (compressImage TestCodec.platform (TestCodec.picture "a.png" 512 300)
              (Some (of_Z 512))) = Some c /\
    surface c = (512, 300).
Proof.
  destruct (scaling_direction TestCodec.platform (TestCodec.picture "a.png" 512 300)
              512 300 512) as [c [Hc [_ [_ Hs]]]]; try reflexivity; try lia.
  exists c. split; [exact Hc|]. apply Hs. reflexivity.
Defined.



(** X6: with maxSize = - m for an integer m from 1 to 2^31 - 1, on a
    decodable image with sides within unsigned long and a larger side of at
    least 1, each side of the canvas is 0 where maxSize = m gives 0 and
    otherwise the canvas element's default, 300 for the width and 150 for
    the height. *)
Theorem negative_maxSize_falls_back_to_defaults (P : Platform) (f : File.t) (w h m : Z) :
  readable P f = true -> decode_image P (data_url f) = Some (w, h) ->
  0 <= w <= 4294967295 -> 0 <= h <= 4294967295 -> 1 <= Z.max w h ->
  1 <= m <= 2147483647 ->
  exists cn cp,
    canvas (compressImage P f (Some (of_Z (- m)))) = Some cn /\
    canvas (compressImage P f (Some (of_Z m))) = Some cp /\
    cwidth cn = (if cwidth cp =? 0 then 0 else 300) /\
    cheight cn = (if cheight cp =? 0 then 0 else 150).
Proof.
  intros Hr Hd Hw Hh Hmax Hm.
  rewrite (compressImage_decoded P f (Some (of_Z (- m))) w h Hr Hd).
  rewrite (compressImage_decoded P f (Some (of_Z m)) w h Hr Hd).
  cbn [canvas or_default]. eexists. eexists.
  split; [reflexivity|]. split; [reflexivity|].
  set (i := {| src := data_url f; width := w; height := h |}).
  pose proof (surface_render (of_Z (- m)) i) as En.
  pose proof (surface_render (of_Z m) i) as Ep.
  unfold surface in En, Ep. cbn [width height i] in En, Ep.
  apply pair_equal_spec in En. destruct En as [-> ->].
  apply pair_equal_spec in Ep. destruct Ep as [-> ->].
  rewrite !scale_of_max53
    by (split; [lia | change (2 ^ 53) with 9007199254740992; lia]).
  split; apply side_px_negative; lia.
Qed.

Lemma negative_maxSize_falls_back_to_defaults_witness :
  exists cn,
    canvas (compressImage TestCodec.platform (TestCodec.picture "a.png" 2000 1000)
              (Some (of_Z (-512)))) = Some cn /\
    surface cn = (300, 150).
Proof.
  destruct (negative_maxSize_falls_back_to_defaults TestCodec.platform
              (TestCodec.picture "a.png" 2000 1000) 2000 1000 512)
    as [cn [cp [Hn [Hp [Hw Hh]]]]]; try reflexivity; try lia.
  exists cn. split; [exact Hn|].
  injection Hp as <-. unfold surface. rewrite Hw, Hh. reflexivity.
Defined.

(** X7: with a maxSize that is NaN or infinite the canvas is 0 by 0 for
    every decodable image, and the promise is fulfilled with the file
    holding the text null. *)
Theorem nonfinite_maxSize_yields_null_file (P : Platform) (f : File.t) (w h : Z)
    (M : Number) :
  readable P f = true -> decode_image P (data_url f) = Some (w, h) ->
  inf_or_nan M ->
  (exists c, canvas (compressImage P f (Some M)) = Some c /\ surface c = (0, 0)) /\
  promise (compressImage P f (Some M))
  = Fulfilled (File.make (File.name f) jpeg (date_now P) null_text).
Proof.
  intros Hr Hd HM.
  rewrite (compressImage_decoded P f (Some M) w h Hr Hd).
  cbn [canvas promise or_default].
  pose proof (render_nonfinite M {| src := data_url f; width := w; height := h |} HM) as Hs.
  split; [eexists; split; [reflexivity | exact Hs]|].
  rewrite toBlob_empty; [reflexivity|].
  left. unfold surface in Hs. congruence.
Qed.

Lemma nonfinite_maxSize_yields_null_file_witness :
  promise (compressImage TestCodec.platform (TestCodec.picture "a.png" 2000 1000)
             (Some S754_nan))
  = Fulfilled (File.make "a.png" jpeg 1700000000000 null_text).
Proof.
  exact (proj2 (nonfinite_maxSize_yields_null_file TestCodec.platform
    (TestCodec.picture "a.png" 2000 1000) 2000 1000 S754_nan eq_refl eq_refl I)).
Defined.

(** * The scroll handler *)

Lemma classList_remove_absent (token : string) (l : list string) :
  ~ In token l -> Hero.classList_remove token l = l.
Proof.
  intro H. unfold Hero.classList_remove. induction l as [|a l IH]; [reflexivity|].
  cbn [filter]. destruct (String.eqb_spec a token) as [->|Hne].
  - exfalso. apply H. now left.
  - cbn [negb]. f_equal. apply IH. intro Hin. apply H. now right.
Qed.

Lemma classList_remove_appended (token : string) (l : list string) :
  ~ In token l -> Hero.classList_remove token (l ++ [token]) = l.
Proof.
  intro H. unfold Hero.classList_remove. rewrite filter_app.
  fold (Hero.classList_remove token l). rewrite (classList_remove_absent token l H).
  cbn [filter]. rewrite String.eqb_refl. cbn [negb]. apply app_nil_r.
Qed.

Lemma classList_remove_In (token t : string) (l : list string) :
  In t (Hero.classList_remove token l) <-> In t l /\ t <> token.
Proof.
  unfold Hero.classList_remove. rewrite filter_In.
  destruct (String.eqb_spec t token) as [->|Hne]; cbn [negb]; intuition congruence.
Qed.

(** X8: after the scroll handler has run the image element carries the
    class scrolled exactly when the scroll position exceeds 100; every other
    class is there if and only if it was there before, and a class list
    without repetitions stays without repetitions. *)
Theorem handlescroll_sets_scrolled_class (scrollY : Number) (classList : list string) :
  (In "scrolled"%string (Hero.handlescroll scrollY classList) <->
   SFltb (of_Z 100) scrollY = true) /\
  (forall t, t <> "scrolled"%string ->
     (In t (Hero.handlescroll scrollY classList) <-> In t classList)) /\
  (NoDup classList -> NoDup (Hero.handlescroll scrollY classList)).
Proof.
  unfold Hero.handlescroll, Hero.scrollThreshold.
  destruct (SFltb (of_Z 100) scrollY).
  - unfold Hero.classList_add.
    destruct (in_dec string_dec "scrolled"%string classList) as [Hin|Hnin].
    + split; [tauto|]. split; [tauto | trivial].
    + split; [split; [reflexivity|]; intros _; apply in_or_app; right; now left|].
      split.
      * intros t Ht. rewrite in_app_iff. cbn [In]. intuition congruence.
      * intro Hnd. apply NoDup_app; [exact Hnd | repeat constructor; intros [] | ].
        intros a Ha [<-|[]]. contradiction.
  - split; [|split].
    + rewrite classList_remove_In. split; [intros [_ H]; congruence | discriminate].
    + intros t Ht. rewrite classList_remove_In. tauto.
    + intro Hnd. apply NoDup_filter. exact Hnd.
Qed.

Lemma handlescroll_from_either (y : Number) (l : list string) :
  ~ In "scrolled"%string l ->
  Hero.handlescroll y (l ++ ["scrolled"%string]) = Hero.handlescroll y l /\
  (Hero.handlescroll y l = l \/ Hero.handlescroll y l = l ++ ["scrolled"%string]).
Proof.
  intro H. unfold Hero.handlescroll.
  destruct (SFltb Hero.scrollThreshold y).
  - unfold Hero.classList_add.
    destruct (in_dec string_dec "scrolled"%string l) as [Hin|_]; [contradiction|].
    destruct (in_dec string_dec "scrolled"%string (l ++ ["scrolled"%string])) as [_|Hn].
    + split; [reflexivity | now right].
    + exfalso. apply Hn. apply in_or_app. right. now left.
  - rewrite classList_remove_appended, classList_remove_absent by exact H.
    split; [reflexivity | now left].
Qed.

(** X9: starting from a class list without scrolled, the class list after
    any series of scroll events is the one the last event alone would give:
    earlier scroll positions leave no trace. *)
Theorem last_scroll_decides (classList : list string) (earlier : list Number)
    (last : Number) :
  ~ In "scrolled"%string classList ->
  Hero.after_scrolls (earlier ++ [last]) classList = Hero.handlescroll last classList.
Proof.
  intro H. unfold Hero.after_scrolls. rewrite fold_left_app. cbn [fold_left].
  assert (Hinv : fold_left (fun cl y => Hero.handlescroll y cl) earlier classList = classList \/
                 fold_left (fun cl y => Hero.handlescroll y cl) earlier classList
                 = classList ++ ["scrolled"%string]).
  { assert (G : forall l0, l0 = classList \/ l0 = classList ++ ["scrolled"%string] ->
                  fold_left (fun cl y => Hero.handlescroll y cl) earlier l0 = classList \/
                  fold_left (fun cl y => Hero.handlescroll y cl) earlier l0
                  = classList ++ ["scrolled"%string]).
    { induction earlier as [|y ys IH]; intros l0 Hl0; [exact Hl0|].
      cbn [fold_left]. apply IH.
      destruct (handlescroll_from_either y classList H) as [E1 E2].
      destruct Hl0 as [->| ->]; [exact E2 | rewrite E1; exact E2]. }
    apply G. now left. }
  destruct Hinv as [-> | ->]; [reflexivity|].
  apply (handlescroll_from_either last classList H).
Qed.

Lemma last_scroll_decides_witness :
  Hero.after_scrolls [of_Z 250; of_Z 40; of_Z 101] ["hero-image"%string]
  = Hero.handlescroll (of_Z 101) ["hero-image"%string].
Proof.
  apply (last_scroll_decides ["hero-image"%string] [of_Z 250; of_Z 40] (of_Z 101)).
  intros [H|[]]. discriminate.
Defined.

(** * The transaction form *)

Lemma find_first {A : Type} (p : A -> bool) (l : list A) (a : A) :
  find p l = Some a <->
  exists before after,
    l = before ++ a :: after /\ p a = true /\ Forall (fun b => p b = false) before.
Proof.
  induction l as [|x l IH]; cbn [find].
  - split; [discriminate|]. intros [[|b before] [after [E _]]]; discriminate.
  - destruct (p x) eqn:Hx.
    + split.
      * intros [= <-]. exists [], l. repeat split; [exact Hx | constructor].
      * intros [[|b before] [after [E [Ha Hb]]]].
        -- injection E as -> _. reflexivity.
        -- injection E as -> _. inversion Hb; congruence.
    + rewrite IH. split.
      * intros [before [after [-> [Ha Hb]]]].
        exists (x :: before), after. repeat split; [exact Ha | now constructor].
      * intros [[|b before] [after [E [Ha Hb]]]].
        -- injection E as -> _. congruence.
        -- injection E as -> ->. exists before, after.
           repeat split; [exact Ha | now inversion Hb].
Qed.

Lemma find_none {A : Type} (p : A -> bool) (l : list A) :
  find p l = None <-> Forall (fun a => p a = false) l.
Proof.
  induction l as [|x l IH]; cbn [find].
  - split; [constructor | reflexivity].
  - destruct (p x) eqn:Hx.
    + split; [discriminate|]. intro H. inversion H; congruence.
    + rewrite IH. split; [now constructor | now inversion 1].
Qed.

(** X10: a form that does not start from a transaction to edit preselects
    the first account flagged as default, and preselects none exactly when
    no account of the list (an empty list included) is flagged. *)
Theorem preselected_account_is_first_default
    (DateInput Date : Type) (new_Date : DateInput -> Date)
    (Number_toString : Number -> string)
    (accounts : list TransactionForm.Account) (editMode : bool)
    (initialData : option (TransactionForm.Transaction DateInput)) (now : Date) :
  editMode = false \/ initialData = None ->
  (forall i,
     TransactionForm.accountId Date
       (TransactionForm.defaultValues DateInput Date new_Date Number_toString
          accounts editMode initialData now) = Some i <->
     exists before a after,
       accounts = before ++ a :: after /\
       TransactionForm.isDefault a = true /\ TransactionForm.id a = i /\
       Forall (fun b => TransactionForm.isDefault b = false) before) /\
  (TransactionForm.accountId Date
     (TransactionForm.defaultValues DateInput Date new_Date Number_toString
        accounts editMode initialData now) = None <->
   Forall (fun a => TransactionForm.isDefault a = false) accounts).
Proof.
  intro Hmode.
  assert (E : TransactionForm.accountId Date
                (TransactionForm.defaultValues DateInput Date new_Date Number_toString
                   accounts editMode initialData now)
              = TransactionForm.default_accountId accounts).
  { destruct Hmode as [-> | ->]; [reflexivity | destruct editMode; reflexivity]. }
  rewrite E. unfold TransactionForm.default_accountId. split.
  - intro i. split.
    + destruct (find TransactionForm.isDefault accounts) as [a|] eqn:Hf; [|discriminate].
      intros [= <-]. apply find_first in Hf.
      destruct Hf as [before [after [Hl [Ha Hb]]]].
      exists before, a, after. repeat split; assumption.
    + intros [before [a [after [Hl [Ha [Hi Hb]]]]]].
      assert (Hf : find TransactionForm.isDefault accounts = Some a).
      { apply find_first. exists before, after. repeat split; assumption. }
      rewrite Hf. cbn. now rewrite Hi.
  - rewrite <- find_none.
    destruct (find TransactionForm.isDefault accounts); cbn; split; congruence.
Qed.

Lemma preselected_account_is_first_default_witness :
  TransactionForm.accountId Z
    (TransactionForm.defaultValues Z Z (fun d => d) (fun _ => "0"%string)
       [ {| TransactionForm.id := "a1"; TransactionForm.name := "Cash";
            TransactionForm.balance := "10.00"; TransactionForm.isDefault := false |};
         {| TransactionForm.id := "a2"; TransactionForm.name := "Bank";
            TransactionForm.balance := "250.00"; TransactionForm.isDefault := true |} ]
       false None 0) = Some "a2"%string.
Proof.
  apply (proj1 (preselected_account_is_first_default Z Z (fun d => d)
                  (fun _ => "0"%string) _ false None 0 (or_introl eq_refl))).
  eexists [_], _, []. repeat split. repeat constructor.
Defined.

(** X11: after two receipt scans in a row the amount and the date are those
    of the second scan, but a description or category the second scan lacks
    (absent or empty) stays as the first scan left it; type, account and
    recurrence are never touched, and a null scan result changes nothing. *)
Theorem later_scan_keeps_earlier_text
    (DateInput Date : Type) (new_Date : DateInput -> Date)
    (Number_toString : Number -> string)
    (d1 d2 : TransactionForm.Scan DateInput) (st : TransactionForm.FormState Date) :
  let scan := TransactionForm.handleScanComplete DateInput Date new_Date Number_toString in
  let fv0 := TransactionForm.values Date st in
  let fv2 := TransactionForm.values Date (scan (Some d2) (scan (Some d1) st)) in
  TransactionForm.amount Date fv2 = Number_toString (TransactionForm.s_amount DateInput d2) /\
  TransactionForm.date Date fv2 = new_Date (TransactionForm.s_date DateInput d2) /\
  TransactionForm.description Date fv2 =
    (if TransactionForm.truthy (TransactionForm.s_description DateInput d2)
     then TransactionForm.s_description DateInput d2
     else if TransactionForm.truthy (TransactionForm.s_description DateInput d1)
          then TransactionForm.s_description DateInput d1
          else TransactionForm.description Date fv0) /\
  TransactionForm.category Date fv2 =
    (if TransactionForm.truthy (TransactionForm.s_category DateInput d2)
     then TransactionForm.s_category DateInput d2
     else if TransactionForm.truthy (TransactionForm.s_category DateInput d1)
          then TransactionForm.s_category DateInput d1
          else TransactionForm.category Date fv0) /\
  TransactionForm.type Date fv2 = TransactionForm.type Date fv0 /\
  TransactionForm.accountId Date fv2 = TransactionForm.accountId Date fv0 /\
  TransactionForm.isRecurring Date fv2 = TransactionForm.isRecurring Date fv0 /\
  TransactionForm.recurringInterval Date fv2 = TransactionForm.recurringInterval Date fv0 /\
  scan None st = st.
Proof.
  cbv zeta. unfold TransactionForm.handleScanComplete.
  cbn [TransactionForm.values].
  destruct (TransactionForm.truthy (TransactionForm.s_description DateInput d1));
    destruct (TransactionForm.truthy (TransactionForm.s_category DateInput d1));
    destruct (TransactionForm.truthy (TransactionForm.s_description DateInput d2));
    destruct (TransactionForm.truthy (TransactionForm.s_category DateInput d2));
    repeat split.
Qed.
